(** * ET Office Portal: invoice ingestion, item/customer index and item-buyer lookup

    A shallow embedding of the import script (import-invoices-last-3-years),
    of [scripts/build_item_customer_index.mjs] and of the item-buyers lookup
    route, with the properties their specification states about them.

    Modelling conventions.
    - A JavaScript string is a [string]; one [ascii] stands for one UTF-16
      code unit, so the development covers strings of characters below 256.
    - A JavaScript number is a [jsnum]: NaN, the two infinities, or a finite
      value kept as an exact rational.  The finite range of binary64 is kept
      (a value that rounds beyond it becomes an infinity); rounding inside the
      range and the sign of zero are not modelled.
    - A [Date] built by [new Date(year, monthIndex, day)] is the number of its
      local civil day; comparing two such dates compares their day numbers.
    - The document store is a finite map from document paths to documents; a
      document is a finite map from field paths to leaf values, a nested map
      field [raw: {k: v}] being the field path [raw.k].  [set(ref, payload,
      {merge: true})] overwrites the fields of the payload and keeps the others.
    - A parsed CSV file is the list of the records the parser hands to the
      row callback, in file order; row callbacks run one after the other and
      every commit of a batch that is not under test for retries succeeds. *)

From stdpp Require Import gmap strings list fin_maps sorting.
From Stdlib Require Import Ascii QArith Qabs.

Local Open Scope Z_scope.

(** ** JavaScript strings *)

Module JsStr.

Definition code (c : ascii) : Z := Z.of_nat (nat_of_ascii c).

(** WhiteSpace and LineTerminator code units below 128. *)
Definition isSpace (c : ascii) : bool :=
  (code c =? 32) || ((9 <=? code c) && (code c <=? 13)).

Definition isDigit (c : ascii) : bool :=
  (48 <=? code c) && (code c <=? 57).

Definition digitVal (c : ascii) : Z := code c - 48.

Fixpoint rev_onto (s acc : string) : string :=
  match s with
  | EmptyString => acc
  | String c r => rev_onto r (String c acc)
  end.

Definition rev (s : string) : string := rev_onto s EmptyString.

Fixpoint trimStart (s : string) : string :=
  match s with
  | EmptyString => EmptyString
  | String c r => if isSpace c then trimStart r else s
  end.

Definition trimEnd (s : string) : string := rev (trimStart (rev s)).

(** [String.prototype.trim] *)
Definition trim (s : string) : string := trimEnd (trimStart s).

(** [s.replaceAll(a, b)] for a one-character pattern [a]. *)
Fixpoint replaceAll (a : ascii) (b : string) (s : string) : string :=
  match s with
  | EmptyString => EmptyString
  | String c r =>
      if Ascii.eqb c a then b +:+ replaceAll a b r
      else String c (replaceAll a b r)
  end.

(** [s.replace(/[...]/g, "")] for a character class given as a predicate. *)
Fixpoint removeAll (p : ascii → bool) (s : string) : string :=
  match s with
  | EmptyString => EmptyString
  | String c r => if p c then removeAll p r else String c (removeAll p r)
  end.

Definition lowerChar (c : ascii) : ascii :=
  if (65 <=? code c) && (code c <=? 90)
  then ascii_of_nat (nat_of_ascii c + 32) else c.

Definition upperChar (c : ascii) : ascii :=
  if (97 <=? code c) && (code c <=? 122)
  then ascii_of_nat (nat_of_ascii c - 32) else c.

Fixpoint mapChars (f : ascii → ascii) (s : string) : string :=
  match s with
  | EmptyString => EmptyString
  | String c r => String (f c) (mapChars f r)
  end.

Definition toLowerCase : string → string := mapChars lowerChar.
Definition toUpperCase : string → string := mapChars upperChar.

Fixpoint repeatChar (n : nat) (c : ascii) : string :=
  match n with
  | O => EmptyString
  | S k => String c (repeatChar k c)
  end.

(** [s.padStart(width, c)] for a one-character filler. *)
Definition padStart (width : nat) (c : ascii) (s : string) : string :=
  repeatChar (width - String.length s) c +:+ s.

(** [s.includes(t)] *)
Fixpoint includes (t s : string) : bool :=
  String.prefix t s ||
  match s with
  | EmptyString => false
  | String _ r => includes t r
  end.

(** Longest prefix of decimal digits, and what follows it. *)
Fixpoint spanDigits (s : string) : string * string :=
  match s with
  | EmptyString => (EmptyString, EmptyString)
  | String c r =>
      if isDigit c
      then let '(d, rest) := spanDigits r in (String c d, rest)
      else (EmptyString, s)
  end.

Fixpoint allDigits (s : string) : bool :=
  match s with
  | EmptyString => true
  | String c r => isDigit c && allDigits r
  end.

(** Value of a string of decimal digits, most significant first. *)
Fixpoint digitsVal_from (acc : Z) (s : string) : Z :=
  match s with
  | EmptyString => acc
  | String c r => digitsVal_from (10 * acc + digitVal c) r
  end.

Definition digitsVal (s : string) : Z := digitsVal_from 0 s.

(** Decimal rendering of a non-negative row index, as a template literal
    prints it. *)
Fixpoint natDigits (fuel : nat) (n : nat) (acc : string) : string :=
  match fuel with
  | O => acc
  | S f =>
      let d := ascii_of_nat (48 + n mod 10) in
      if (n <? 10)%nat then String d acc
      else natDigits f (n / 10) (String d acc)
  end.

Definition ofNat (n : nat) : string := natDigits (S n) n EmptyString.

End JsStr.

(** ** JavaScript numbers *)

Inductive jsnum : Type :=
| NaN
| PInf
| NInf
| Fin (q : Q).

Module JsNum.

(** Half-way point between the largest binary64 value and [2^1024]: a
    magnitude at or beyond it rounds to an infinity. *)
Definition overflowBound : Z := 2 ^ 1024 - 2 ^ 970.

Definition norm (q : Q) : jsnum :=
  if Qle_bool (inject_Z overflowBound) (Qabs q)
  then (if Qle_bool 0 q then PInf else NInf)
  else Fin (Qred q).

Definition ofZ (z : Z) : jsnum := norm (inject_Z z).

Definition isFinite (x : jsnum) : bool :=
  match x with Fin _ => true | _ => false end.

(** ToBoolean on a number: [0] and [NaN] are falsy. *)
Definition truthy (x : jsnum) : bool :=
  match x with
  | NaN => false
  | Fin q => negb (Qeq_bool q 0)
  | _ => true
  end.

(** [x || 0] *)
Definition orZero (x : jsnum) : jsnum := if truthy x then x else Fin 0.

Definition neg (x : jsnum) : jsnum :=
  match x with
  | NaN => NaN
  | PInf => NInf
  | NInf => PInf
  | Fin q => Fin (Qred (- q))
  end.

Definition add (x y : jsnum) : jsnum :=
  match x, y with
  | NaN, _ | _, NaN => NaN
  | PInf, NInf | NInf, PInf => NaN
  | PInf, _ | _, PInf => PInf
  | NInf, _ | _, NInf => NInf
  | Fin a, Fin b => norm (a + b)
  end.

Definition sub (x y : jsnum) : jsnum := add x (neg y).

(** The relational comparison of two numbers; [None] when one is NaN. *)
Definition cmp (x y : jsnum) : option comparison :=
  match x, y with
  | NaN, _ | _, NaN => None
  | PInf, PInf | NInf, NInf => Some Eq
  | PInf, _ | _, NInf => Some Gt
  | NInf, _ | _, PInf => Some Lt
  | Fin a, Fin b => Some (a ?= b)%Q
  end.

Definition ltb (x y : jsnum) : bool :=
  match cmp x y with Some Lt => true | _ => false end.
Definition leb (x y : jsnum) : bool :=
  match cmp x y with Some Lt | Some Eq => true | _ => false end.
Definition gtb (x y : jsnum) : bool := ltb y x.
Definition geb (x y : jsnum) : bool := leb y x.

(** [Math.min(x, y)] *)
Definition min (x y : jsnum) : jsnum :=
  match cmp x y with
  | None => NaN
  | Some Gt => y
  | Some _ => x
  end.

(** ToIntegerOrInfinity, with the infinities kept apart. *)
Inductive intOrInf : Type := IPInf | INInf | IInt (z : Z).

Definition toIntegerOrInfinity (x : jsnum) : intOrInf :=
  match x with
  | NaN => IInt 0
  | PInf => IPInf
  | NInf => INInf
  | Fin q => IInt (Z.quot (Qnum q) (Zpos (Qden q)))
  end.

(** *** [Number(s)]: the StringNumericLiteral grammar *)

(** [m * 10^e] *)
Definition scale10 (m e : Z) : jsnum :=
  if 0 <=? e then norm (inject_Z (m * 10 ^ e))
  else norm (Qmake m (Z.to_pos (10 ^ (- e)))).

(** ExponentPart, or nothing; [None] when what is left is neither. *)
Definition exponentPart (s : string) : option Z :=
  match s with
  | EmptyString => Some 0
  | String c r =>
      if (JsStr.code c =? 101) || (JsStr.code c =? 69) then
        let '(sgn, r') :=
          match r with
          | String "+" t => (1, t)
          | String "-" t => (-1, t)
          | _ => (1, r)
          end in
        match r' with
        | EmptyString => None
        | _ => if JsStr.allDigits r' then Some (sgn * JsStr.digitsVal r')
               else None
        end
      else None
  end.

(** StrUnsignedDecimalLiteral other than [Infinity]. *)
Definition unsignedDecimal (s : string) : option jsnum :=
  let '(ip, r1) := JsStr.spanDigits s in
  let '(fp, r2) :=
    match r1 with
    | String "." t => JsStr.spanDigits t
    | _ => (EmptyString, r1)
    end in
  match ip, fp with
  | EmptyString, EmptyString => None
  | _, _ =>
      match exponentPart r2 with
      | None => None
      | Some e =>
          let k := Z.of_nat (String.length fp) in
          Some (scale10 (JsStr.digitsVal (ip +:+ fp)) (e - k))
      end
  end.

Definition radixDigit (radix : Z) (c : ascii) : option Z :=
  let n := JsStr.code c in
  let v :=
    if (48 <=? n) && (n <=? 57) then n - 48
    else if (97 <=? n) && (n <=? 102) then n - 87
    else if (65 <=? n) && (n <=? 70) then n - 55
    else 99 in
  if v <? radix then Some v else None.

Fixpoint radixVal (radix : Z) (acc : Z) (s : string) : option Z :=
  match s with
  | EmptyString => Some acc
  | String c r =>
      match radixDigit radix c with
      | Some v => radixVal radix (radix * acc + v) r
      | None => None
      end
  end.

(** NonDecimalIntegerLiteral: [0x], [0o] and [0b] prefixes. *)
Definition nonDecimal (s : string) : option jsnum :=
  match s with
  | String "0" (String p (String c r)) =>
      let radix :=
        if (JsStr.code p =? 120) || (JsStr.code p =? 88) then 16
        else if (JsStr.code p =? 111) || (JsStr.code p =? 79) then 8
        else if (JsStr.code p =? 98) || (JsStr.code p =? 66) then 2
        else 0 in
      if radix =? 0 then None
      else option_map ofZ (radixVal radix 0 (String c r))
  | _ => None
  end.

Definition strDecimal (s : string) : option jsnum :=
  if String.eqb s "Infinity" then Some PInf else unsignedDecimal s.

(** [Number(s)] on a string. *)
Definition Number (s : string) : jsnum :=
  let t := JsStr.trim s in
  match t with
  | EmptyString => Fin 0
  | String "+" r => default NaN (strDecimal r)
  | String "-" r => default NaN (option_map neg (strDecimal r))
  | _ =>
      match nonDecimal t with
      | Some v => v
      | None => default NaN (strDecimal t)
      end
  end.

End JsNum.


(** ** The lookup route: tiers *)

Inductive tier : Type := A | B | C | D.

Definition tierFromSales25 (sales25 : jsnum) : tier :=
  if JsNum.geb sales25 (Fin 10000) then A
  else if JsNum.geb sales25 (Fin 5000) then B
  else if JsNum.geb sales25 (Fin 2000) then C
  else D.


(** ** Field normalizer *)

(** [cleanStr(v)]: [v] is [undefined] ([None]) or a string. *)
Definition cleanStr (v : option string) : string :=
  match v with
  | None => ""
  | Some s => JsStr.trim s
  end.

Definition parseNumber (v : option string) : jsnum :=
  let s := cleanStr v in
  if String.eqb s "" then Fin 0
  else
    let n := JsNum.Number
               (JsStr.replaceAll "$" "" (JsStr.replaceAll "," "" s)) in
    if JsNum.isFinite n then n else Fin 0.

Definition normalizeDocId (raw : string) : string :=
  JsStr.replaceAll "/" "-" (cleanStr (Some raw)).

Definition padSalesperson (v : option string) : string :=
  let s := cleanStr v in
  if String.eqb s "" then ""
  else if (4 <=? String.length s)%nat then s else JsStr.padStart 4 "0" s.

(** The owner code of the header payload:
    [cleanStr(ciGet(r, "SalespersonNo")).padStart(4, "0")]. *)
Definition padHeaderSalesperson (v : option string) : string :=
  JsStr.padStart 4 "0" (cleanStr v).

Definition nonDigit (c : ascii) : bool := negb (JsStr.isDigit c).

(** [normRep] of the lookup route; [/\\D/g] is the class of [nonDigit]. *)
Definition normRep (v : option string) : string :=
  let s := cleanStr v in
  if String.eqb s "" then ""
  else
    let digits := JsStr.removeAll nonDigit s in
    JsStr.padStart 4 "0" (if String.eqb digits "" then s else digits).

(** *** Dates *)

(** Day number (days since 1970-01-01) of a proleptic Gregorian date. *)
Definition daysFromCivil (y m d : Z) : Z :=
  let y' := if m <=? 2 then y - 1 else y in
  let era := y' / 400 in
  let yoe := y' - era * 400 in
  let mp := (m + 9) mod 12 in
  let doy := (153 * mp + 2) / 5 + d - 1 in
  let doe := yoe * 365 + yoe / 4 - yoe / 100 + doy in
  era * 146097 + doe - 719468.

(** [new Date(year, monthIndex, day)]: a two-digit year counts from 1900,
    and months and days out of range roll over. *)
Definition mkDate (year monthIndex day : Z) : Z :=
  let yr := if (0 <=? year) && (year <=? 99) then 1900 + year else year in
  daysFromCivil (yr + monthIndex / 12) (monthIndex mod 12 + 1) 1 + day - 1.

(** The match of [/^(\d{1,2})\/(\d{1,2})\/(\d{4})$/]: the three groups. *)
Definition matchUSDate (s : string) : option (string * string * string) :=
  let '(g1, r1) := JsStr.spanDigits s in
  match r1 with
  | String "/" t1 =>
      let '(g2, r2) := JsStr.spanDigits t1 in
      match r2 with
      | String "/" t2 =>
          let '(g3, r3) := JsStr.spanDigits t2 in
          if (1 <=? String.length g1)%nat && (String.length g1 <=? 2)%nat
             && (1 <=? String.length g2)%nat && (String.length g2 <=? 2)%nat
             && (String.length g3 =? 4)%nat && String.eqb r3 ""
          then Some (g1, g2, g3) else None
      | _ => None
      end
  | _ => None
  end.

Definition parseUSDate (mmddyyyy : option string) : option Z :=
  let s := cleanStr mmddyyyy in
  match matchUSDate s with
  | None => None
  | Some (g1, g2, g3) =>
      let month := JsStr.digitsVal g1 in
      let day := JsStr.digitsVal g2 in
      let year := JsStr.digitsVal g3 in
      if (month =? 0) || (day =? 0) || (year =? 0) then None
      else Some (mkDate year (month - 1) day)
  end.

(** The local clock of a run: what [new Date()] shows ([getMonth] counts from
    zero) and the time the store stamps on a write. *)
Record clock : Type := {
  nowYear : Z;
  nowMonth : Z;
  nowDate : Z;
  serverTime : Z
}.

Definition today (clk : clock) : Z :=
  mkDate (nowYear clk) (nowMonth clk) (nowDate clk).

Definition cutoffDate (clk : clock) (yearsBack : Z) : Z :=
  mkDate (nowYear clk - yearsBack) (nowMonth clk) (nowDate clk).

(** ** Batched writer: commit with retry *)

Inductive commitEvent : Type :=
| EvCommit (attempt : nat)
| EvWait (ms : nat).

Inductive commitResult : Type :=
| Committed
| Thrown (msg : string).

(** The transient signatures of the import script. *)
Definition transientImport (msg : string) : bool :=
  JsStr.includes "ABORTED" msg
  || JsStr.includes "DEADLINE_EXCEEDED" msg
  || JsStr.includes "RESOURCE_EXHAUSTED" msg
  || JsStr.includes "UNAVAILABLE" msg.

(** The transient signatures of the index builder. *)
Definition transientIndex (msg : string) : bool :=
  JsStr.includes "ABORTED" msg
  || JsStr.includes "DEADLINE_EXCEEDED" msg
  || JsStr.includes "RESOURCE_EXHAUSTED" msg.

Section CommitWithRetry.

(** Which messages are transient, and what the [attempt]-th call of
    [batch.commit()] does: [None] when it succeeds, the message of the
    error it throws otherwise. *)
Variable transient : string → bool.
Variable commit : nat → option string.

(** [commitWithRetry(batch, attempt)]; [fuel] bounds the recursion depth. *)
Fixpoint commitWithRetryFrom (fuel attempt : nat)
  : option (list commitEvent * commitResult) :=
  match fuel with
  | O => None
  | S fuel' =>
      match commit attempt with
      | None => Some ([EvCommit attempt], Committed)
      | Some msg =>
          if (attempt <=? 6)%nat && transient msg then
            let waitMs := (250 * attempt * attempt)%nat in
            match commitWithRetryFrom fuel' (attempt + 1) with
            | Some (evs, res) =>
                Some (EvCommit attempt :: EvWait waitMs :: evs, res)
            | None => None
            end
          else Some ([EvCommit attempt], Thrown msg)
      end
  end.

(** [commitWithRetry(batch)], the attempt defaulting to 1. *)
Definition commitWithRetry (fuel : nat)
  : option (list commitEvent * commitResult) :=
  commitWithRetryFrom fuel 1.

End CommitWithRetry.

Definition waitsOf (evs : list commitEvent) : list nat :=
  omap (λ e, match e with EvWait ms => Some ms | _ => None end) evs.

Definition commitsOf (evs : list commitEvent) : list nat :=
  omap (λ e, match e with EvCommit a => Some a | _ => None end) evs.

(** The events of [r] failed attempts from [attempt] on, each followed by its
    wait, and of the attempt that ends the call. *)
Definition retryEvents (attempt r : nat) : list commitEvent :=
  flat_map (λ k, [EvCommit k; EvWait (250 * k * k)%nat]) (seq attempt r)
  ++ [EvCommit (attempt + r)].

(** ** The lookup route: opportunities *)

(** A field of a stored document as the route reads it. *)
Inductive jsany : Type :=
| AUndefined
| ANumber (n : jsnum)
| AString (s : string).

(** [toNumber(v)].  For a number [n], [String(n)] holds neither ["$"] nor
    [","] and [Number(String(n))] is [n] again. *)
Definition toNumber (v : jsany) : jsnum :=
  match v with
  | AUndefined => Fin 0
  | ANumber n => if JsNum.isFinite n then n else Fin 0
  | AString str =>
      let s := JsStr.trim
                 (JsStr.removeAll
                    (λ c, (JsStr.code c =? 36) || (JsStr.code c =? 44)) str) in
      let n := JsNum.Number s in
      if JsNum.isFinite n then n else Fin 0
  end.

Definition tier_eqb (a b : tier) : bool :=
  match a, b with
  | A, A | B, B | C, C | D, D => true
  | _, _ => false
  end.

Record customerDoc : Type := {
  cid : string;
  cdata : gmap string jsany
}.

Record Buyer : Type := {
  customerNo : string;
  name : jsany;
  city : jsany;
  state : string;
  salespersonNo : jsany;
  sales25 : jsnum;
  buyerTier : tier;
  buyerEmail : option string;
  buyerName : option string
}.

(** [a ?? b] on document fields. *)
Definition orElse (a b : jsany) : jsany :=
  match a with AUndefined => b | _ => a end.

Definition field (d : customerDoc) (k : string) : jsany :=
  default AUndefined (cdata d !! k).

(** [typeof raw === "string"], then the trimmed text unless it is empty. *)
Definition pickString (raw : jsany) : option string :=
  match raw with
  | AString s =>
      let v := JsStr.trim s in
      if String.eqb v "" then None else Some v
  | _ => None
  end.

Definition pickBuyerEmail (d : customerDoc) : option string :=
  pickString
    (orElse (field d "buyerEmail")
       (orElse (field d "buyersEmail")
          (orElse (field d "buyer_email")
             (orElse (field d "buyerEmailAddress") (field d "buyeremail"))))).

Definition pickBuyerName (d : customerDoc) : option string :=
  pickString
    (orElse (field d "buyerName")
       (orElse (field d "buyersName") (field d "buyer_name"))).

(** [(v ?? "").toString().trim()] for a text field. *)
Definition textOf (v : jsany) : string :=
  match v with
  | AString s => JsStr.trim s
  | _ => ""
  end.

Definition buyerOf (d : customerDoc) (sales : jsnum) (t : tier) : Buyer :=
  {| customerNo := cid d;
     name := orElse (field d "name")
               (orElse (field d "customerName")
                  (orElse (field d "customer") (AString "")));
     city := orElse (field d "city") (AString "");
     state := textOf (orElse (field d "stateUpper") (field d "state"));
     salespersonNo := orElse (field d "salespersonNo")
                        (orElse (field d "salesperson") (AString ""));
     sales25 := sales;
     buyerTier := t;
     buyerEmail := pickBuyerEmail d;
     buyerName := pickBuyerName d |}.

(** The [selectedTier] query parameter. *)
Definition selectedTierOf (param : option string) : option tier :=
  let p := JsStr.toUpperCase (JsStr.trim (default "" param)) in
  if String.eqb p "A" then Some A
  else if String.eqb p "B" then Some B
  else if String.eqb p "C" then Some C
  else if String.eqb p "D" then Some D
  else None.

(** [Math.min(Number(searchParams.get("oppCount") || "4"), 25)] *)
Definition oppCountOf (param : option string) : jsnum :=
  let raw := match param with
             | None => "4"
             | Some s => if String.eqb s "" then "4" else s
             end in
  JsNum.min (JsNum.Number raw) (Fin 25).

(** [list.slice(0, end)] *)
Definition sliceTo {X : Type} (l : list X) (end_ : jsnum) : list X :=
  let len := Z.of_nat (length l) in
  let final :=
    match JsNum.toIntegerOrInfinity end_ with
    | JsNum.INInf => 0
    | JsNum.IPInf => len
    | JsNum.IInt z => if z <? 0 then Z.max (len + z) 0 else Z.min z len
    end in
  take (Z.to_nat final) l.

(** The comparator [(a, b) => (b.sales25 ?? 0) - (a.sales25 ?? 0)] is below
    zero when [a] goes first. *)
Definition salesBefore (a b : Buyer) : bool :=
  JsNum.ltb (JsNum.sub (sales25 b) (sales25 a)) (Fin 0).

(** [Array.prototype.sort] is stable: an element goes in front of the first
    already placed one that it must precede. *)
Fixpoint insertSorted (before : Buyer → Buyer → bool) (x : Buyer)
  (sorted : list Buyer) : list Buyer :=
  match sorted with
  | [] => [x]
  | y :: r =>
      if before x y then x :: y :: r
      else y :: insertSorted before x r
  end.

Definition sortBy (before : Buyer → Buyer → bool) (l : list Buyer)
  : list Buyer :=
  foldl (λ acc x, insertSorted before x acc) [] l.

(** The loops over [s1.docs] and [s2.docs] with the [seen] set. *)
Definition dedupeById (docs : list customerDoc) : list customerDoc :=
  (foldl (λ (st : gset string * list customerDoc) d,
            if decide (cid d ∈ st.1) then st
            else ({[cid d]} ∪ st.1, st.2 ++ [d]))
         (∅, []) docs).2.

(** The loop that fills [list]: accounts of the selected tier that are not
    buyers. *)
Definition candidates (buyerIds : gset string) (selectedTier : tier)
  (docs : list customerDoc) : list Buyer :=
  omap (λ d,
          if decide (cid d ∈ buyerIds) then None
          else
            let sales := toNumber (field d "udf_25TotalSales") in
            let computedTier := tierFromSales25 sales in
            if tier_eqb computedTier selectedTier
            then Some (buyerOf d sales computedTier) else None)
       docs.

(** What the store answers to the three customer queries of the route. *)
Record customerQueries : Type := {
  bySalespersonNo : string → list customerDoc;
  bySalespersonNo2 : string → list customerDoc;
  firstCustomers : list customerDoc
}.

(** Step 4 of the route, once the buyers are known. *)
Definition opportunitiesFor (q : customerQueries) (repNo : string)
  (selectedTier : option tier) (oppCount : jsnum) (buyerIds : gset string)
  : list Buyer :=
  match selectedTier with
  | None => []
  | Some t =>
      let docs :=
        if String.eqb repNo "" then firstCustomers q
        else dedupeById (bySalespersonNo q repNo ++ bySalespersonNo2 q repNo) in
      sliceTo (sortBy salesBefore (candidates buyerIds t docs)) oppCount
  end.

(** The query parameters of a request and the buyers the first three steps
    found ([None] when the route answered early with empty lists). *)
Record lookupRequest : Type := {
  reqSelectedTier : option string;
  reqOppCount : option string;
  reqSalespersonNo : option string
}.

Definition opportunitiesOf (q : customerQueries) (req : lookupRequest)
  (buyers : option (gset string)) : list Buyer :=
  match buyers with
  | None => []
  | Some buyerIds =>
      opportunitiesFor q (normRep (reqSalespersonNo req))
        (selectedTierOf (reqSelectedTier req))
        (oppCountOf (reqOppCount req)) buyerIds
  end.

(** ** Notions of the specification *)






(** *** A sample request *)

Definition sampleCustomer (id sales : string) : customerDoc :=
  {| cid := id; cdata := {[ "udf_25TotalSales" := AString sales ]} |}.

(** Owner 0007 has three accounts of tier A; X has bought the item. *)
Definition sampleQueries : customerQueries :=
  {| bySalespersonNo := λ rep,
       if String.eqb rep "0007"
       then [sampleCustomer "X" "20,000"; sampleCustomer "Z" "$12,000.00";
             sampleCustomer "Y" "15000"]
       else [];
     bySalespersonNo2 := λ rep,
       if String.eqb rep "0007" then [sampleCustomer "Y" "15000"] else [];
     firstCustomers := [] |}.

Definition sampleRequest (count : option string) : lookupRequest :=
  {| reqSelectedTier := Some "a";
     reqOppCount := count;
     reqSalespersonNo := Some "7" |}.

Definition sampleBuyers : option (gset string) := Some {[ "X" ]}.

(** ** Parsed records and the document store *)

(** A record of a parsed CSV file: the entries of the row object, in the
    order of [Object.keys]. *)
Abbreviation row := (list (string * string)).

(** What the streaming parser hands to [step]: [results.data] and the length
    of [results.errors]. *)
Record stepResult : Type := {
  data : option row;
  errors : nat
}.

(** [row[key]] when [key in row]. *)
Definition getKey (r : row) (key : string) : option string :=
  snd <$> find (λ kv, String.eqb kv.1 key) r.

Definition ciGet (r : row) (key : string) : option string :=
  match getKey r key with
  | Some v => Some v
  | None =>
      let lk := JsStr.toLowerCase key in
      match find (λ kv, String.eqb (JsStr.toLowerCase kv.1) lk) r with
      | Some (found, _) =>
          if String.eqb found "" then None else getKey r found
      | None => None
      end
  end.

(** [a ?? b] on looked-up fields. *)
Definition orField (a b : option string) : option string :=
  match a with Some _ => a | None => b end.

(** A leaf of a stored document. *)
Inductive value : Type :=
| VStr (s : string)
| VNum (n : jsnum)
| VDate (day : Z)
| VServerTimestamp
| VTime (t : Z)
| VArr (l : list string).

(** One [batch.set(ref, payload, { merge: true })]. *)
Record write : Type := {
  wpath : string;
  wdata : gmap string value
}.

(** The store stamps its time on a [serverTimestamp()] field at commit. *)
Definition resolve (t : Z) (v : value) : value :=
  match v with
  | VServerTimestamp => VTime t
  | _ => v
  end.

Definition applyWrite (t : Z) (s : gmap string (gmap string value))
  (w : write) : gmap string (gmap string value) :=
  <[wpath w := (resolve t <$> wdata w) ∪ default ∅ (s !! wpath w)]> s.

(** [batch.commit()] when it succeeds. *)
Definition commitBatch (t : Z) (s : gmap string (gmap string value))
  (batch : list write) : gmap string (gmap string value) :=
  foldl (applyWrite t) s batch.

(** A batch under construction with its two counters, and the store. *)
Record batcher : Type := {
  db : gmap string (gmap string value);
  batch : list write;
  batchCount : nat;
  written : nat
}.

Definition newBatcher (s : gmap string (gmap string value)) : batcher :=
  {| db := s; batch := []; batchCount := 0; written := 0 |}.

(** [batch.set(...); batchCount++; written++;] and the commit of a full
    batch. *)
Definition batchSet (limit : nat) (t : Z) (b : batcher) (w : write)
  : batcher :=
  let batch' := batch b ++ [w] in
  let count' := S (batchCount b) in
  if (limit <=? count')%nat
  then {| db := commitBatch t (db b) batch'; batch := []; batchCount := 0;
          written := S (written b) |}
  else {| db := db b; batch := batch'; batchCount := count';
          written := S (written b) |}.

(** [if (batchCount > 0) await commitWithRetry(batch);] *)
Definition flush (t : Z) (b : batcher) : gmap string (gmap string value) :=
  if (0 <? batchCount b)%nat then commitBatch t (db b) (batch b) else db b.

(** [sanitizeRow(r)], as the fields below [raw]. *)
Definition sanitizeRow (r : row) : gmap string value :=
  foldl (λ out kv,
           let key := JsStr.trim kv.1 in
           if String.eqb key "" then out
           else <["raw." +:+ JsStr.replaceAll "." "_" key := VStr kv.2]> out)
        ∅ r.

(** An insertion-ordered [Map] with string keys. *)
Fixpoint mapSet {V : Type} (k : string) (v : V) (m : list (string * V))
  : list (string * V) :=
  match m with
  | [] => [(k, v)]
  | (k', v') :: rest =>
      if String.eqb k' k then (k, v) :: rest else (k', v') :: mapSet k v rest
  end.

Definition mapGet {V : Type} (k : string) (m : list (string * V))
  : option V :=
  snd <$> find (λ kv, String.eqb kv.1 k) m.

(** ** The streaming reader *)

Record parseCounts : Type := {
  rowCount : nat;
  skippedCount : nat;
  parseErrorCount : nat
}.

Section StreamParseCsv.

Context {St : Type}.

(** The row callback: the new state, and whether the row was kept. *)
Variable onRow : St → row → nat → St * bool.

(** The [step] callback of [streamParseCsv]. *)
Definition streamStep (acc : St * parseCounts) (results : stepResult)
  : St * parseCounts :=
  let '(st, c) := acc in
  let rowCount' := S (rowCount c) in
  match data results with
  | None | Some [] =>
      (st, {| rowCount := rowCount';
              skippedCount := S (skippedCount c);
              parseErrorCount := parseErrorCount c |})
  | Some r =>
      let errs := (parseErrorCount c + errors results)%nat in
      let '(st', ok) := onRow st r rowCount' in
      (st', {| rowCount := rowCount';
               skippedCount := if ok then skippedCount c
                               else S (skippedCount c);
               parseErrorCount := errs |})
  end.

Definition streamParseCsv (rows : list stepResult) (st : St)
  : St * parseCounts :=
  foldl streamStep
        (st, {| rowCount := 0; skippedCount := 0; parseErrorCount := 0 |})
        rows.

End StreamParseCsv.

(** ** The import script *)

(** [YEARS_BACK], [BATCH_LIMIT] and the base names of the two files. *)
Record config : Type := {
  yearsBack : Z;
  batchLimit : nat;
  hhFile : string;
  hdFile : string
}.

Definition invoicePath (invoiceNo : string) : string :=
  "invoices/" +:+ normalizeDocId invoiceNo.

Record headerState : Type := {
  inRangeInvoiceNos : gset string;
  headerFreight : gmap string jsnum;
  headerDiscount : gmap string jsnum;
  headerWriter : batcher
}.

Definition headerPayload (cfg : config) (r : row) (rowIndex : nat)
  (invoiceNo : string) (invoiceDate : Z) (freightAmt discountAmt : jsnum)
  : gmap string value :=
  list_to_map
    [ ("invoiceNo", VStr invoiceNo);
      ("invoiceDate", VDate invoiceDate);
      ("customerNo",
        VStr (cleanStr (orField (ciGet r "CustomerNo")
                                (ciGet r "CustomerNumber"))));
      ("arDivisionNo",
        VStr (cleanStr (orField (ciGet r "ARDivisionNo")
                                (ciGet r "DivisionNo"))));
      ("salespersonNo", VStr (padHeaderSalesperson (ciGet r "SalespersonNo")));
      ("taxAmt", VNum (parseNumber (ciGet r "SalesTaxAmt")));
      ("customerPONo", VStr (cleanStr (ciGet r "CustomerPONo")));
      ("nonTaxableSalesAmt", VNum (parseNumber (ciGet r "NonTaxableSalesAmt")));
      ("freightAmt", VNum freightAmt);
      ("discountAmt", VNum discountAmt);
      ("comment", VStr (cleanStr (ciGet r "Comment")));
      ("invoiceType", VStr (cleanStr (ciGet r "InvoiceType")));
      ("importedAt", VServerTimestamp);
      ("source.file", VStr (hhFile cfg));
      ("source.rowIndex", VNum (JsNum.ofZ (Z.of_nat rowIndex))) ]
  ∪ sanitizeRow r.

(** The row callback of the header pass. *)
Definition headerRow (cfg : config) (clk : clock) (st : headerState)
  (r : row) (rowIndex : nat) : headerState * bool :=
  let invoiceNo := cleanStr (ciGet r "InvoiceNo") in
  if String.eqb invoiceNo "" then (st, false)
  else
    let invoiceDateRaw :=
      cleanStr (orField (ciGet r "InvoiceDate") (ciGet r "Date")) in
    match parseUSDate (Some invoiceDateRaw) with
    | None => (st, false)
    | Some invoiceDate =>
        if invoiceDate <? cutoffDate clk (yearsBack cfg) then (st, false)
        else
          let freightAmt := parseNumber (ciGet r "FreightAmt") in
          let discountAmt := parseNumber (ciGet r "DiscountAmt") in
          let payload := headerPayload cfg r rowIndex invoiceNo invoiceDate
                           freightAmt discountAmt in
          ({| inRangeInvoiceNos := {[invoiceNo]} ∪ inRangeInvoiceNos st;
              headerFreight := <[invoiceNo := freightAmt]> (headerFreight st);
              headerDiscount :=
                <[invoiceNo := discountAmt]> (headerDiscount st);
              headerWriter :=
                batchSet (batchLimit cfg) (serverTime clk) (headerWriter st)
                  {| wpath := invoicePath invoiceNo; wdata := payload |} |},
           true)
    end.

Definition makeLineId (invoiceNo : string) (lineKey : string)
  (rowIndex : nat) : string :=
  let k := cleanStr (Some lineKey) in
  if String.eqb k "" then normalizeDocId (invoiceNo +:+ "__" +:+ JsStr.ofNat rowIndex)
  else normalizeDocId (invoiceNo +:+ "__" +:+ k).

Definition linePath (invoiceNo : string) (lineId : string) : string :=
  invoicePath invoiceNo +:+ "/lines/" +:+ lineId.

Record detailState : Type := {
  merchTotals : list (string * jsnum);
  lineWriter : batcher
}.

Definition lineKeyOf (r : row) : string :=
  default ""
    (orField (ciGet r "LineKey")
       (orField (ciGet r "InvoiceLineKey")
          (orField (ciGet r "DetailSeqNo") (ciGet r "LineSeqNo")))).

Definition linePayload (cfg : config) (r : row) (rowIndex : nat)
  (invoiceNo : string) (unitPrice extensionAmt : jsnum)
  : gmap string value :=
  list_to_map
    [ ("invoiceNo", VStr invoiceNo);
      ("itemCode", VStr (cleanStr (ciGet r "ItemCode")));
      ("itemCodeDesc", VStr (cleanStr (ciGet r "ItemCodeDesc")));
      ("quantityShipped", VNum (parseNumber (ciGet r "QuantityShipped")));
      ("discount", VNum (parseNumber (ciGet r "Discount")));
      ("productLine", VStr (cleanStr (ciGet r "ProductLine")));
      ("aliasItemNo", VStr (cleanStr (ciGet r "AliasItemNo")));
      ("commentText", VStr (cleanStr (ciGet r "CommentText")));
      ("unitPrice", VNum unitPrice);
      ("extensionAmt", VNum extensionAmt);
      ("warehouseCode", VStr (cleanStr (ciGet r "WarehouseCode")));
      ("salesAcctKey", VStr (cleanStr (ciGet r "SalesAcctKey")));
      ("importedAt", VServerTimestamp);
      ("source.file", VStr (hdFile cfg));
      ("source.rowIndex", VNum (JsNum.ofZ (Z.of_nat rowIndex))) ]
  ∪ sanitizeRow r.

(** The row callback of the detail pass; [inRange] is the set the header
    pass has filled. *)
Definition detailRow (cfg : config) (clk : clock) (inRange : gset string)
  (st : detailState) (r : row) (rowIndex : nat) : detailState * bool :=
  let invoiceNo := cleanStr (ciGet r "InvoiceNo") in
  if String.eqb invoiceNo "" || negb (bool_decide (invoiceNo ∈ inRange))
  then (st, false)
  else
    let lineId := makeLineId invoiceNo (lineKeyOf r) rowIndex in
    let extensionAmt := parseNumber (ciGet r "ExtensionAmt") in
    let unitPrice := parseNumber (ciGet r "UnitPrice") in
    if String.eqb (cleanStr (ciGet r "ItemCode")) ""
       && String.eqb (cleanStr (ciGet r "ItemCodeDesc")) ""
    then (st, false)
    else
      let payload := linePayload cfg r rowIndex invoiceNo unitPrice
                       extensionAmt in
      ({| lineWriter :=
            batchSet (batchLimit cfg) (serverTime clk) (lineWriter st)
              {| wpath := linePath invoiceNo lineId; wdata := payload |};
          merchTotals :=
            mapSet invoiceNo
              (JsNum.add
                 (JsNum.orZero
                    (default (Fin 0) (mapGet invoiceNo (merchTotals st))))
                 extensionAmt)
              (merchTotals st) |},
       true).

Definition totalsPayload (merchTotal freightAmt discountAmt : jsnum)
  : gmap string value :=
  list_to_map
    [ ("merchTotal", VNum merchTotal);
      ("invoiceTotalComputed",
        VNum (JsNum.sub (JsNum.add merchTotal freightAmt) discountAmt));
      ("totalsComputedAt", VServerTimestamp) ].

(** The body of the loop over [merchTotals.entries()]. *)
Definition totalsEntry (cfg : config) (clk : clock)
  (freight discount : gmap string jsnum) (b : batcher)
  (entry : string * jsnum) : batcher :=
  let '(invoiceNo, merchTotal) := entry in
  let freightAmt := JsNum.orZero (default (Fin 0) (freight !! invoiceNo)) in
  let discountAmt := JsNum.orZero (default (Fin 0) (discount !! invoiceNo)) in
  batchSet (batchLimit cfg) (serverTime clk) b
    {| wpath := invoicePath invoiceNo;
       wdata := totalsPayload merchTotal freightAmt discountAmt |}.

(** What a run of the import script leaves behind. *)
Record importResult : Type := {
  headerCounts : parseCounts;
  headersWritten : nat;
  inRangeAfterHeaders : gset string;
  detailCounts : parseCounts;
  linesWritten : nat;
  totalsUpdated : nat;
  finalStore : gmap string (gmap string value)
}.

Definition headerPass (cfg : config) (clk : clock) (hh : list stepResult)
  (s : gmap string (gmap string value)) : headerState * parseCounts :=
  streamParseCsv (headerRow cfg clk) hh
    {| inRangeInvoiceNos := ∅; headerFreight := ∅; headerDiscount := ∅;
       headerWriter := newBatcher s |}.

Definition detailPass (cfg : config) (clk : clock) (inRange : gset string)
  (hd : list stepResult) (s : gmap string (gmap string value))
  : detailState * parseCounts :=
  streamParseCsv (detailRow cfg clk inRange) hd
    {| merchTotals := []; lineWriter := newBatcher s |}.

Definition totalsPass (cfg : config) (clk : clock)
  (freight discount : gmap string jsnum) (totals : list (string * jsnum))
  (s : gmap string (gmap string value)) : batcher :=
  foldl (totalsEntry cfg clk freight discount) (newBatcher s) totals.

Definition importInvoices (cfg : config) (clk : clock)
  (hh hd : list stepResult) (s : gmap string (gmap string value))
  : importResult :=
  let '(hst, hcounts) := headerPass cfg clk hh s in
  let s1 := flush (serverTime clk) (headerWriter hst) in
  let '(dst, dcounts) := detailPass cfg clk (inRangeInvoiceNos hst) hd s1 in
  let s2 := flush (serverTime clk) (lineWriter dst) in
  let tb := totalsPass cfg clk (headerFreight hst) (headerDiscount hst)
              (merchTotals dst) s2 in
  {| headerCounts := hcounts;
     headersWritten := written (headerWriter hst);
     inRangeAfterHeaders := inRangeInvoiceNos hst;
     detailCounts := dcounts;
     linesWritten := written (lineWriter dst);
     totalsUpdated := written tb;
     finalStore := flush (serverTime clk) tb |}.

(** *** A sample run *)

Definition sampleConfig : config :=
  {| yearsBack := 3; batchLimit := 450;
     hhFile := "Inv_HH.csv"; hdFile := "Inv_HD.csv" |}.

(** 3 November 2026. *)
Definition sampleClock : clock :=
  {| nowYear := 2026; nowMonth := 10; nowDate := 3; serverTime := 1793700000 |}.

Definition parsed (r : row) : stepResult := {| data := Some r; errors := 0 |}.

(** One header in the window (INV1, owner 7) and one before it (INV2). *)
Definition sampleHeaders : list stepResult :=
  [ parsed [("InvoiceNo", "INV1"); ("InvoiceDate", "06/15/2025");
            ("CustomerNo", "C100"); ("SalespersonNo", "7");
            ("FreightAmt", "12.00"); ("DiscountAmt", "2.50")];
    parsed [("InvoiceNo", "INV2"); ("InvoiceDate", "01/31/2020");
            ("CustomerNo", "C200"); ("SalespersonNo", "0007")] ].


(** ** The passes as functions of their input *)

(** The records of a file with their row numbers, counted from one, and
    those the reader hands on to the row callback. *)
Definition indexed {X : Type} (l : list X) : list (nat * X) :=
  zip (seq 1 (length l)) l.

Definition liveRecord (ir : nat * stepResult) : option (nat * row) :=
  match data ir.2 with
  | Some (x :: r) => Some (ir.1, x :: r)
  | _ => None
  end.

Definition records (rows : list stepResult) : list (nat * row) :=
  omap liveRecord (indexed rows).

(** Why the header pass keeps or skips a record. *)
Inductive headerVerdict : Type :=
| HEmpty
| HMissingKey
| HOutOfWindow
| HAccepted.

Definition headerVerdict_eqb (a b : headerVerdict) : bool :=
  match a, b with
  | HEmpty, HEmpty | HMissingKey, HMissingKey
  | HOutOfWindow, HOutOfWindow | HAccepted, HAccepted => true
  | _, _ => false
  end.

Definition headerKey (r : row) : string := cleanStr (ciGet r "InvoiceNo").

Definition headerDate (r : row) : option Z :=
  parseUSDate
    (Some (cleanStr (orField (ciGet r "InvoiceDate") (ciGet r "Date")))).

(** A header is in the window when it has a date that is not before the
    cutoff. *)
Definition inWindow (cfg : config) (clk : clock) (r : row) : bool :=
  match headerDate r with
  | Some d => negb (d <? cutoffDate clk (yearsBack cfg))
  | None => false
  end.

Definition rowVerdict (cfg : config) (clk : clock) (r : row)
  : headerVerdict :=
  if String.eqb (headerKey r) "" then HMissingKey
  else if inWindow cfg clk r then HAccepted else HOutOfWindow.

Definition stepVerdict (cfg : config) (clk : clock) (res : stepResult)
  : headerVerdict :=
  match data res with
  | Some (x :: r) => rowVerdict cfg clk (x :: r)
  | _ => HEmpty
  end.

Definition countVerdict (cfg : config) (clk : clock) (v : headerVerdict)
  (rows : list stepResult) : nat :=
  length (filter (λ res, headerVerdict_eqb (stepVerdict cfg clk res) v = true)
            rows).

Definition headerAccepted (cfg : config) (clk : clock) (r : row) : bool :=
  headerVerdict_eqb (rowVerdict cfg clk r) HAccepted.

Definition headerWriteOf (cfg : config) (clk : clock) (ir : nat * row)
  : option write :=
  let '(i, r) := ir in
  if headerAccepted cfg clk r then
    Some {| wpath := invoicePath (headerKey r);
            wdata := headerPayload cfg r i (headerKey r)
                       (default 0 (headerDate r))
                       (parseNumber (ciGet r "FreightAmt"))
                       (parseNumber (ciGet r "DiscountAmt")) |}
  else None.

Definition headerWrites (cfg : config) (clk : clock)
  (hh : list stepResult) : list write :=
  omap (headerWriteOf cfg clk) (records hh).

(** The accepted header records, in file order. *)
Definition acceptedHeaders (cfg : config) (clk : clock)
  (hh : list stepResult) : list (nat * row) :=
  filter (λ ir, headerAccepted cfg clk ir.2 = true) (records hh).

Definition inRangeOf (cfg : config) (clk : clock) (hh : list stepResult)
  : gset string :=
  foldl (λ acc ir, {[headerKey ir.2]} ∪ acc) ∅ (acceptedHeaders cfg clk hh).















(** What the header pass hands back: its counters, the number of headers
    written and the set of invoice numbers in the window. *)
Definition headerOutput (cfg : config) (clk : clock) (hh : list stepResult)
  (s : gmap string (gmap string value)) : parseCounts * nat * gset string :=
  let hp := headerPass cfg clk hh s in
  (hp.2, written (headerWriter hp.1), inRangeInvoiceNos hp.1).




(** *** Records at the edges of the window *)

(** INV1 is in the window; INV9 is dated after the day of the run. *)
Definition edgeHeaders : list stepResult :=
  [ parsed [("InvoiceNo", "INV1"); ("InvoiceDate", "06/15/2025")];
    parsed [("InvoiceNo", "INV9"); ("InvoiceDate", "01/01/2030")] ].

(** A line of INV9, and a line of INV1 with neither item code nor
    description. *)
Definition edgeDetails : list stepResult :=
  [ parsed [("InvoiceNo", "INV9"); ("ItemCode", "K604");
            ("ExtensionAmt", "5")];
    parsed [("InvoiceNo", "INV1"); ("LineKey", "7"); ("ItemCode", " ");
            ("ExtensionAmt", "8")] ].

(** ** The index builder *)

(** [invMap]: what a header in the window contributes. *)
Record headerInfo : Type := {
  hCustomerNo : string;
  hSalespersonNo : string
}.

(** An entry of [idx]; [customers] is a [Set], kept in insertion order. *)
Record indexEntry : Type := {
  itemCode : string;
  entrySalespersonNo : string;
  customers : list string
}.

(** [set.add(x)] *)
Definition setAdd (x : string) (l : list string) : list string :=
  if bool_decide (x ∈ l) then l else l ++ [x].

Definition indexInvoiceNo (r : row) : string :=
  cleanStr (orField (ciGet r "InvoiceNo")
              (orField (ciGet r "InvoiceNumber") (ciGet r "Invoice"))).

(** The body of the loop over the header rows. *)
Definition indexHeader (cfg : config) (clk : clock)
  (invMap : gmap string headerInfo) (r : row) : gmap string headerInfo :=
  let invoiceNo := indexInvoiceNo r in
  if String.eqb invoiceNo "" then invMap
  else
    match headerDate r with
    | None => invMap
    | Some invoiceDate =>
        if invoiceDate <? cutoffDate clk (yearsBack cfg) then invMap
        else
          let customerNo :=
            cleanStr (orField (ciGet r "CustomerNo")
                        (ciGet r "CustomerNumber")) in
          let salespersonNo :=
            padSalesperson
              (orField (ciGet r "SalespersonNo")
                 (orField (ciGet r "SalesmanNo") (ciGet r "Salesperson"))) in
          if String.eqb customerNo "" || String.eqb salespersonNo ""
          then invMap
          else <[invoiceNo := {| hCustomerNo := customerNo;
                                 hSalespersonNo := salespersonNo |}]> invMap
    end.

Definition indexHeaders (cfg : config) (clk : clock) (hhRows : list row)
  : gmap string headerInfo :=
  foldl (indexHeader cfg clk) ∅ hhRows.

(** What a detail row brings to the index: item code, owner code and
    account, when its invoice is in [invMap] and it has an item code. *)
Definition contribution (invMap : gmap string headerInfo) (r : row)
  : option (string * string * string) :=
  let invoiceNo := indexInvoiceNo r in
  if String.eqb invoiceNo "" then None
  else
    match invMap !! invoiceNo with
    | None => None
    | Some header =>
        let item :=
          JsStr.toUpperCase
            (cleanStr (orField (ciGet r "ItemCode") (ciGet r "Item"))) in
        if String.eqb item "" then None
        else Some (item, hSalespersonNo header, hCustomerNo header)
    end.

Definition indexKey (item salespersonNo : string) : string :=
  item +:+ "__" +:+ salespersonNo.

(** The update of [idx] for one contributing row. *)
Definition indexAdd (idx : list (string * indexEntry))
  (t : string * string * string) : list (string * indexEntry) :=
  let '(item, salespersonNo, customerNo) := t in
  let key := indexKey item salespersonNo in
  let cur := default {| itemCode := item;
                        entrySalespersonNo := salespersonNo;
                        customers := [] |}
                     (mapGet key idx) in
  mapSet key
    {| itemCode := itemCode cur;
       entrySalespersonNo := entrySalespersonNo cur;
       customers := setAdd customerNo (customers cur) |}
    idx.



Definition indexPath (key : string) : string :=
  "itemCustomerIndex/" +:+ normalizeDocId key.

(** [Array.from(v.customers.values()).sort()] *)
Definition sortedCustomers (e : indexEntry) : list string :=
  merge_sort String.le (customers e).

Definition indexPayload (cfg : config) (e : indexEntry)
  : gmap string value :=
  list_to_map
    [ ("itemCode", VStr (itemCode e));
      ("salespersonNo", VStr (entrySalespersonNo e));
      ("customerNos", VArr (sortedCustomers e));
      ("customerCount",
        VNum (JsNum.ofZ (Z.of_nat (length (sortedCustomers e)))));
      ("yearsBack", VNum (JsNum.ofZ (yearsBack cfg)));
      ("sourceFiles.headers", VStr (hhFile cfg));
      ("sourceFiles.lines", VStr (hdFile cfg));
      ("updatedAt", VServerTimestamp) ].

Definition indexWriteOf (cfg : config) (kv : string * indexEntry) : write :=
  {| wpath := indexPath kv.1; wdata := indexPayload cfg kv.2 |}.




(** *** The index as a function of the contributing rows *)

Definition contributions (cfg : config) (clk : clock)
  (hhRows hdRows : list row) : list (string * string * string) :=
  omap (contribution (indexHeaders cfg clk hhRows)) hdRows.

Definition indexOf (l : list (string * string * string))
  : list (string * indexEntry) :=
  foldl indexAdd [] l.

Definition indexWrites (cfg : config) (clk : clock)
  (hhRows hdRows : list row) : list write :=
  indexWriteOf cfg <$> indexOf (contributions cfg clk hhRows hdRows).



(** ** The full ingestion *)



(** *** Sample tables *)



(** Two pairs of item code and owner code with the same composite key. *)
Definition clashHeaderTable : list row :=
  [ [("InvoiceNo", "INV1"); ("InvoiceDate", "06/15/2025");
     ("CustomerNo", "C1"); ("SalespersonNo", "0007")];
    [("InvoiceNo", "INV2"); ("InvoiceDate", "06/16/2025");
     ("CustomerNo", "C2"); ("SalespersonNo", "0010__0007")] ].

Definition clashDetailTable : list row :=
  [ [("InvoiceNo", "INV1"); ("ItemCode", "K604__0010")];
    [("InvoiceNo", "INV2"); ("ItemCode", "K604")] ].

(** What [replaceAll("/", "-")] does to one character. *)
Definition slashToDash (c : ascii) : ascii :=
  if Ascii.eqb c "/" then "-"%char else c.


(** ** One buyer per tier *)

(** [bestByTier]: a [Map] from tier to buyer, used through [get] and [set]
    only, and read in the fixed order A, B, C, D. *)
Definition tierSet (m : tier → option Buyer) (t : tier) (b : Buyer)
  : tier → option Buyer :=
  λ t', if tier_eqb t' t then Some b else m t'.

(** The body of the loop over [buyersRaw]: a buyer replaces the one kept for
    its tier when its sales are higher. *)
Definition bestStep (bestByTier : tier → option Buyer) (b : Buyer)
  : tier → option Buyer :=
  let t := buyerTier b in
  match bestByTier t with
  | None => tierSet bestByTier t b
  | Some curr =>
      if JsNum.gtb (sales25 b) (sales25 curr) then tierSet bestByTier t b
      else bestByTier
  end.

Definition bestByTierOf (buyersRaw : list Buyer) : tier → option Buyer :=
  foldl bestStep (λ _, None) buyersRaw.

(** [order.map((t) => bestByTier.get(t)).filter(Boolean)] *)
Definition onePerTierOf (buyersRaw : list Buyer) : list Buyer :=
  omap (bestByTierOf buyersRaw) [A; B; C; D].

(** The [onePerTier] query parameter. *)
Definition onePerTierParam (param : option string) : bool :=
  String.eqb (default "" param) "1".

Definition buyersOf (onePerTier : bool) (buyersRaw : list Buyer)
  : list Buyer :=
  if onePerTier then onePerTierOf buyersRaw else buyersRaw.

(** A buyer of the route, from the document of the account. *)
Definition buyerRow (d : customerDoc) : Buyer :=
  let sales := toNumber (field d "udf_25TotalSales") in
  buyerOf d sales (tierFromSales25 sales).

(** Three buyers of tier A and one of tier D. *)
Definition sampleBuyerRows : list Buyer :=
  buyerRow <$> [sampleCustomer "Z" "$12,000.00"; sampleCustomer "X" "20,000";
                sampleCustomer "W" "150"; sampleCustomer "Y" "20000"].

(** ** The importer that reads whole files *)

(** The earlier import script parses each file at once and loops over the
    rows; [cleanStr], [parseNumber], [parseUSDate], [normalizeDocId],
    [cutoffDate], [sanitizeRow], [ciGet] and [makeLineId] are those of the
    streaming script. *)
Module Legacy.

Definition BATCH_LIMIT : nat := 450.

Definition invoiceNoOf (r : row) : string :=
  cleanStr (orField (ciGet r "InvoiceNo")
              (orField (ciGet r "InvoiceNumber") (ciGet r "Invoice"))).

Definition legacyHeaderPayload (cfg : config) (r : row) (rowIndex : nat)
  (invoiceNo : string) (invoiceDate : Z) : gmap string value :=
  list_to_map
    [ ("invoiceNo", VStr invoiceNo);
      ("invoiceDate", VDate invoiceDate);
      ("customerNo",
        VStr (cleanStr (orField (ciGet r "CustomerNo")
                                (ciGet r "CustomerNumber"))));
      ("arDivisionNo",
        VStr (cleanStr (orField (ciGet r "ARDivisionNo")
                                (ciGet r "DivisionNo"))));
      ("salespersonNo",
        VStr (JsStr.padStart 4 "0"
                (cleanStr (orField (ciGet r "SalespersonNo")
                             (orField (ciGet r "SalesmanNo")
                                      (ciGet r "Salesperson"))))));
      ("invoiceTotal",
        VNum (parseNumber
                (orField (ciGet r "InvoiceTotal")
                   (orField (ciGet r "Total")
                      (orField (ciGet r "InvoiceAmt")
                               (ciGet r "InvoiceAmount"))))));
      ("taxAmt",
        VNum (parseNumber (orField (ciGet r "TaxAmt") (ciGet r "TaxAmount"))));
      ("freightAmt",
        VNum (parseNumber (orField (ciGet r "FreightAmt")
                                   (ciGet r "FreightAmount"))));
      ("importedAt", VServerTimestamp);
      ("source.file", VStr (hhFile cfg));
      ("source.rowIndex", VNum (JsNum.ofZ (Z.of_nat rowIndex))) ]
  ∪ sanitizeRow r.

(** The state of the loop over the header rows; [headersWritten] is the
    counter of the writer. *)
Record headerLoop : Type := {
  inRange : gset string;
  hWriter : batcher;
  hSkipped : nat
}.

(** The body of the loop over [hhRows]; [ir.1] is [i + 1]. *)
Definition headerStep (cfg : config) (clk : clock) (st : headerLoop)
  (ir : nat * row) : headerLoop :=
  let skip := {| inRange := inRange st; hWriter := hWriter st;
                 hSkipped := S (hSkipped st) |} in
  let invoiceNo := invoiceNoOf ir.2 in
  if String.eqb invoiceNo "" then skip
  else
    match headerDate ir.2 with
    | None => skip
    | Some invoiceDate =>
        if invoiceDate <? cutoffDate clk (yearsBack cfg) then skip
        else
          {| inRange := {[ invoiceNo ]} ∪ inRange st;
             hWriter :=
               batchSet BATCH_LIMIT (serverTime clk) (hWriter st)
                 {| wpath := invoicePath invoiceNo;
                    wdata := legacyHeaderPayload cfg ir.2 ir.1 invoiceNo
                               invoiceDate |};
             hSkipped := hSkipped st |}
    end.

Definition headerLoopOf (cfg : config) (clk : clock) (hhRows : list row)
  (s : gmap string (gmap string value)) : headerLoop :=
  foldl (headerStep cfg clk)
        {| inRange := ∅; hWriter := newBatcher s; hSkipped := 0 |}
        (indexed hhRows).

Definition legacyLinePayload (cfg : config) (r : row) (rowIndex : nat)
  (invoiceNo : string) : gmap string value :=
  list_to_map
    [ ("invoiceNo", VStr invoiceNo);
      ("itemCode",
        VStr (cleanStr (orField (ciGet r "ItemCode") (ciGet r "Item"))));
      ("itemCodeDesc",
        VStr (cleanStr (orField (ciGet r "ItemCodeDesc")
                          (orField (ciGet r "ItemDescription")
                                   (ciGet r "Desc")))));
      ("quantityShipped",
        VNum (parseNumber
                (orField (ciGet r "QuantityShipped")
                   (orField (ciGet r "Quantity")
                      (orField (ciGet r "QtyShipped") (ciGet r "Qty"))))));
      ("unitPrice",
        VNum (parseNumber (orField (ciGet r "UnitPrice") (ciGet r "Price"))));
      ("extensionAmt",
        VNum (parseNumber
                (orField (ciGet r "ExtensionAmt")
                   (orField (ciGet r "ExtAmount") (ciGet r "Amount")))));
      ("importedAt", VServerTimestamp);
      ("source.file", VStr (hdFile cfg));
      ("source.rowIndex", VNum (JsNum.ofZ (Z.of_nat rowIndex))) ]
  ∪ sanitizeRow r.

Record lineLoop : Type := {
  lWriter : batcher;
  lSkipped : nat
}.

(** The body of the loop over [hdRows]. *)
Definition lineStep (cfg : config) (clk : clock) (inRangeNos : gset string)
  (st : lineLoop) (ir : nat * row) : lineLoop :=
  let invoiceNo := invoiceNoOf ir.2 in
  if String.eqb invoiceNo "" || negb (bool_decide (invoiceNo ∈ inRangeNos))
  then {| lWriter := lWriter st; lSkipped := S (lSkipped st) |}
  else
    let lineId := makeLineId invoiceNo (lineKeyOf ir.2) ir.1 in
    {| lWriter :=
         batchSet BATCH_LIMIT (serverTime clk) (lWriter st)
           {| wpath := linePath invoiceNo lineId;
              wdata := legacyLinePayload cfg ir.2 ir.1 invoiceNo |};
       lSkipped := lSkipped st |}.

Definition lineLoopOf (cfg : config) (clk : clock) (inRangeNos : gset string)
  (hdRows : list row) (s : gmap string (gmap string value)) : lineLoop :=
  foldl (lineStep cfg clk inRangeNos)
        {| lWriter := newBatcher s; lSkipped := 0 |}
        (indexed hdRows).

(** What a run leaves: the store and the four counters it prints. *)
Record legacyResult : Type := {
  legacyStore : gmap string (gmap string value);
  headersWritten : nat;
  headersSkipped : nat;
  linesWritten : nat;
  linesSkipped : nat
}.

Definition legacyImport (cfg : config) (clk : clock)
  (hhRows hdRows : list row) (s : gmap string (gmap string value))
  : legacyResult :=
  let h := headerLoopOf cfg clk hhRows s in
  let s1 := flush (serverTime clk) (hWriter h) in
  let l := lineLoopOf cfg clk (inRange h) hdRows s1 in
  {| legacyStore := flush (serverTime clk) (lWriter l);
     headersWritten := written (hWriter h);
     headersSkipped := hSkipped h;
     linesWritten := written (lWriter l);
     linesSkipped := lSkipped l |}.

(** *** The run as a function of the rows *)







End Legacy.

(** * Properties *)


(** ** Numbers *)

Lemma cmp_antisym (x y : jsnum) :
  JsNum.cmp y x = option_map CompOpp (JsNum.cmp x y).
Proof.
  destruct x, y; simpl; try reflexivity.
  by rewrite <- Qcompare_antisym.
Qed.

Lemma ltb_not_geb (x y : jsnum) :
  JsNum.ltb x y = true → JsNum.geb x y = false.
Proof.
  unfold JsNum.ltb, JsNum.geb, JsNum.leb. rewrite (cmp_antisym x y).
  destruct (JsNum.cmp x y) as [[]|]; simpl; congruence.
Qed.

Lemma geb_false_mono (x : jsnum) (a b : Q) :
  (a <= b)%Q → JsNum.geb x (Fin a) = false → JsNum.geb x (Fin b) = false.
Proof.
  intros Hab. destruct x as [| | |q]; try done.
  unfold JsNum.geb, JsNum.leb. simpl.
  destruct (a ?= q)%Q eqn:Ea; try done. intros _.
  apply Qgt_alt in Ea.
  assert (q < b)%Q as Hqb by (eapply Qlt_le_trans; eauto).
  apply Qgt_alt in Hqb. by rewrite Hqb.
Qed.

(** ** Tiers *)

(** C4. [tierFromSales25] is a total function of the trailing-sales value onto
    the four bands, the lower bound of a band belonging to it: a value of at
    least 10000 is in band A, a value in [5000, 10000) in band B (so 9999.99 is
    in B), a value in [2000, 5000) in band C and a value below 2000, zero
    included, in band D. *)
Theorem tierFromSales25_bands :
  (∀ x, JsNum.geb x (Fin 10000) = true → tierFromSales25 x = A) ∧
  (∀ x, JsNum.geb x (Fin 5000) = true → JsNum.ltb x (Fin 10000) = true →
        tierFromSales25 x = B) ∧
  (∀ x, JsNum.geb x (Fin 2000) = true → JsNum.ltb x (Fin 5000) = true →
        tierFromSales25 x = C) ∧
  (∀ x, JsNum.ltb x (Fin 2000) = true → tierFromSales25 x = D) ∧
  tierFromSales25 (Fin 10000) = A ∧
  tierFromSales25 (JsNum.Number "9999.99") = B ∧
  tierFromSales25 (Fin 5000) = B ∧
  tierFromSales25 (Fin 2000) = C ∧
  tierFromSales25 (Fin 0) = D ∧
  (∀ t, ∃ x, tierFromSales25 x = t).
Proof.
  assert (∀ a b : Z, a ≤ b → (inject_Z a <= inject_Z b)%Q) as Hle
    by (intros a b Hab; by rewrite <- Zle_Qle).
  unfold tierFromSales25. repeat split.
  - intros x H. by rewrite H.
  - intros x H1 H2%ltb_not_geb. by rewrite H2, H1.
  - intros x H1 H2%ltb_not_geb.
    rewrite (geb_false_mono x 5000 10000), H2, H1; [done | by apply (Hle 5000 10000) | done].
  - intros x H2%ltb_not_geb.
    rewrite (geb_false_mono x 2000 10000), (geb_false_mono x 2000 5000), H2;
      [done | by apply (Hle 2000 5000) | done | by apply (Hle 2000 10000) | done].
  - intros [| | |]; [by exists (Fin 10000) | by exists (Fin 5000)
                     | by exists (Fin 2000) | by exists (Fin 0)].
Qed.

Lemma tierFromSales25_bands_witness :
  tierFromSales25 (Fin 12000) = A ∧ tierFromSales25 (Fin 7500) = B ∧
  tierFromSales25 (Fin 3000) = C ∧ tierFromSales25 (Fin 150) = D.
Proof.
  destruct tierFromSales25_bands as (HA & HB & HC & HD & _).
  split; [|split; [|split]];
    [apply HA | apply HB | apply HC | apply HD]; reflexivity.
Defined.

(** ** Commit with retry *)

Section CommitWithRetryFacts.

Variable transient : string → bool.
Variable commit : nat → option string.

Lemma commitWithRetryFrom_spec (fuel attempt : nat) :
  (1 ≤ fuel)%nat → (8 ≤ fuel + attempt)%nat →
  ∃ r res,
    commitWithRetryFrom transient commit fuel attempt
      = Some (retryEvents attempt r, res) ∧
    (∀ k, (attempt ≤ k < attempt + r)%nat →
          (k ≤ 6)%nat ∧ ∃ msg, commit k = Some msg ∧ transient msg = true) ∧
    match res with
    | Committed => commit (attempt + r)%nat = None
    | Thrown msg =>
        commit (attempt + r)%nat = Some msg ∧
        (transient msg = false ∨ (6 < attempt + r)%nat)
    end.
Proof.
  revert attempt.
  induction fuel as [|fuel IH]; intros attempt Hfuel Hsum; [lia|].
  simpl. destruct (commit attempt) as [msg|] eqn:Hc.
  - destruct ((attempt <=? 6)%nat && transient msg) eqn:Hg.
    + apply andb_true_iff in Hg as [Hle%Nat.leb_le Htr].
      destruct (IH (attempt + 1)%nat ltac:(lia) ltac:(lia))
        as (r & res & -> & Hretry & Hres).
      exists (S r), res. split; [|split].
      * unfold retryEvents. simpl.
        by replace (attempt + 1)%nat with (S attempt) by lia;
           replace (S attempt + r)%nat with (attempt + S r)%nat by lia.
      * intros k Hk. destruct (decide (k = attempt)) as [->|Hne].
        { split; [done|]. by exists msg. }
        apply Hretry. lia.
      * by replace (attempt + S r)%nat with (attempt + 1 + r)%nat by lia.
    + exists 0%nat, (Thrown msg). unfold retryEvents. simpl. rewrite !Nat.add_0_r.
      split; [done|]. split; [intros k; lia|]. split; [done|].
      apply andb_false_iff in Hg as [Hgt%Nat.leb_gt | Hnt]; [right; lia | by left].
  - exists 0%nat, Committed. unfold retryEvents. simpl. rewrite !Nat.add_0_r.
    split; [done|]. split; [intros k; lia | done].
Qed.

End CommitWithRetryFacts.

(** C6. A failed commit is tried again only after a failure with a transient
    signature; the wait before the retry that follows attempt [k] is
    [250 * k * k] ms; there are at most 6 retries, after which the error is
    thrown; a failure without a transient signature is thrown at once.  This
    holds for the signatures of the import script and for those of the index
    builder. *)
Theorem commitWithRetry_policy (transient : string → bool)
    (commit : nat → option string) :
  ∃ r res,
    commitWithRetry transient commit 7 = Some (retryEvents 1 r, res) ∧
    (r ≤ 6)%nat ∧
    waitsOf (retryEvents 1 r) = map (λ k, 250 * k * k)%nat (seq 1 r) ∧
    commitsOf (retryEvents 1 r) = seq 1 (S r) ∧
    (∀ k, (1 ≤ k ≤ r)%nat →
          ∃ msg, commit k = Some msg ∧ transient msg = true) ∧
    match res with
    | Committed => commit (S r) = None
    | Thrown msg =>
        commit (S r) = Some msg ∧ (transient msg = false ∨ r = 6%nat)
    end ∧
    (∀ msg, commit 1%nat = Some msg → transient msg = false →
            r = 0%nat ∧ res = Thrown msg).
Proof.
  destruct (commitWithRetryFrom_spec transient commit 7 1 ltac:(lia) ltac:(lia))
    as (r & res & Heq & Hretry & Hres).
  assert (r ≤ 6)%nat as Hr.
  { destruct r as [|r]; [lia|]. destruct (Hretry (S r)) as [? _]; lia. }
  exists r, res. split; [exact Heq|]. split; [exact Hr|].
  assert (∀ a n, waitsOf (retryEvents a n)
                 = map (λ k, 250 * k * k)%nat (seq a n)) as Hw.
  { intros a n. unfold retryEvents, waitsOf. rewrite omap_app. simpl.
    rewrite app_nil_r. revert a. induction n as [|n IHn]; intros a; [done|].
    simpl. by rewrite IHn. }
  assert (∀ a n, commitsOf (retryEvents a n) = seq a (S n)) as Hcs.
  { intros a n. unfold retryEvents, commitsOf. rewrite omap_app. simpl.
    revert a. induction n as [|n IHn]; intros a.
    - simpl. by rewrite Nat.add_0_r.
    - cbn [seq flat_map app omap]. simpl. f_equal.
      replace (a + S n)%nat with (S a + n)%nat by lia. apply IHn. }
  split; [apply Hw|]. split; [apply Hcs|]. split; [|split].
  - intros k Hk. apply Hretry. lia.
  - destruct res as [|msg]; [exact Hres|].
    destruct Hres as [Hc [Hnt|Hgt]]; (split; [exact Hc|]); [by left | right; lia].
  - intros msg Hc Hnt. destruct r as [|r].
    + split; [done|]. destruct res as [|msg'].
      * simpl in Hres. congruence.
      * destruct Hres as [Hc' _]. simpl in Hc'. congruence.
    + destruct (Hretry 1%nat) as [_ (msg' & Hc' & Htr)]; [lia|]. congruence.
Qed.

(** ** Strings *)

Lemma app_cons (c : ascii) (s t : string) :
  String c s +:+ t = String c (s +:+ t).
Proof. reflexivity. Qed.

Lemma app_empty_l (t : string) : "" +:+ t = t.
Proof. reflexivity. Qed.





Lemma eqb_empty_false (s : string) : s ≠ "" → String.eqb s "" = false.
Proof. intros H. by apply String.eqb_neq. Qed.


Lemma spanDigits_rest (s : string) :
  ∀ g r, JsStr.spanDigits s = (g, r) →
         match r with
         | EmptyString => True
         | String c _ => JsStr.isDigit c = false
         end.
Proof.
  induction s as [|c s IH]; intros g r; simpl.
  - by intros [= <- <-].
  - destruct (JsStr.isDigit c) eqn:Hc.
    + destruct (JsStr.spanDigits s) as [d rest]. intros [= <- <-].
      by apply (IH d rest).
    + by intros [= <- <-].
Qed.



(** ** Fixed-format dates *)





(** ** Identifier padding *)




(** ** Opportunities *)

Lemma length_sliceTo_nonneg {X : Type} (l : list X) (c : Q) :
  (0 <= c)%Q →
  (inject_Z (Z.of_nat (length (sliceTo l (Fin c)))) <= c)%Q.
Proof.
  intros Hc. unfold sliceTo. simpl.
  destruct c as [num den]. unfold Qle in *. simpl in *.
  assert (0 ≤ num) as Hnum by lia.
  set (z := Z.quot num (Z.pos den)).
  assert (0 ≤ z) as Hz by (apply Z.quot_pos; lia).
  assert (z * Z.pos den ≤ num) as Hzc.
  { unfold z. rewrite Z.quot_div_nonneg by lia.
    rewrite Z.mul_comm. apply Z.mul_div_le. lia. }
  destruct (z <? 0) eqn:Hneg; [apply Z.ltb_lt in Hneg; lia|].
  rewrite length_take. nia.
Qed.

Lemma sliceTo_NaN {X : Type} (l : list X) : sliceTo l NaN = [].
Proof.
  unfold sliceTo. simpl.
  by replace (0 `min` Z.of_nat (length l)) with 0 by lia.
Qed.

Lemma min_25_le (x : jsnum) (c : Q) :
  JsNum.min x (Fin 25) = Fin c → (c <= 25)%Q.
Proof.
  destruct x as [| | |a]; simpl; try done.
  - intros [= <-]. apply Qle_refl.
  - unfold JsNum.min. simpl. destruct (a ?= 25)%Q eqn:E; intros [= <-].
    + apply Qeq_alt in E. rewrite E. apply Qle_refl.
    + apply Qlt_alt in E. by apply Qlt_le_weak.
    + apply Qle_refl.
Qed.

(** C10, as the code has it.  When the opportunity count of a request is a
    number that is not negative, the opportunities are at most that many and
    at most 25; when the [oppCount] parameter is there and is not numeric,
    the count is NaN and the list is empty, whatever accounts match. *)
Theorem opportunities_count_bound (q : customerQueries) (req : lookupRequest)
    (buyers : option (gset string)) :
  let opps := opportunitiesOf q req buyers in
  (∀ c, oppCountOf (reqOppCount req) = Fin c → (0 <= c)%Q →
        (inject_Z (Z.of_nat (length opps)) <= c)%Q
        ∧ (c <= 25)%Q ∧ (length opps ≤ 25)%nat) ∧
  (∀ s, reqOppCount req = Some s → s ≠ "" → JsNum.Number s = NaN →
        oppCountOf (reqOppCount req) = NaN ∧ opps = []).
Proof.
  intros opps. split.
  - intros c Hn Hc.
    assert (c <= 25)%Q as H25 by (by apply (min_25_le _ c Hn)).
    assert (inject_Z (Z.of_nat (length opps)) <= c)%Q as Hlen.
    { subst opps. unfold opportunitiesOf, opportunitiesFor.
      destruct buyers as [b|]; [|exact Hc].
      destruct (selectedTierOf _); [|exact Hc].
      rewrite Hn. by apply length_sliceTo_nonneg. }
    split; [exact Hlen|]. split; [exact H25|].
    assert (inject_Z (Z.of_nat (length opps)) <= inject_Z 25)%Q as Hz
      by (eapply Qle_trans; eauto).
    rewrite <- Zle_Qle in Hz. lia.
  - intros s Hs Hne Hnan.
    assert (oppCountOf (reqOppCount req) = NaN) as Hn.
    { unfold oppCountOf. rewrite Hs, (eqb_empty_false s Hne), Hnan. done. }
    split; [exact Hn|]. subst opps. unfold opportunitiesOf, opportunitiesFor.
    destruct buyers as [b|]; [|done].
    destruct (selectedTierOf _); [|done].
    rewrite Hn. apply sliceTo_NaN.
Qed.

Lemma opportunities_count_bound_witness :
  (length (opportunitiesOf sampleQueries (sampleRequest (Some "1"))
             sampleBuyers) ≤ 25)%nat
  ∧ opportunitiesOf sampleQueries (sampleRequest (Some "abc")) sampleBuyers
    = [].
Proof.
  split.
  - apply (proj1 (opportunities_count_bound sampleQueries
                    (sampleRequest (Some "1")) sampleBuyers) 1%Q);
      by vm_compute.
  - apply (proj2 (opportunities_count_bound sampleQueries
                    (sampleRequest (Some "abc")) sampleBuyers) "abc");
      by vm_compute.
Defined.

(** C10, as the claim has it, fails for a negative count: [slice(0, -1)]
    drops the last element only, so two matching accounts leave one
    opportunity, which is more than [min(-1, 25)].  (With the count 1 the
    answer is the better of the two accounts that have not bought.) *)
Lemma opportunities_negative_count :
  let opps := opportunitiesOf sampleQueries (sampleRequest (Some "-1"))
                sampleBuyers in
  selectedTierOf (reqSelectedTier (sampleRequest (Some "-1"))) = Some A
  ∧ oppCountOf (reqOppCount (sampleRequest (Some "-1"))) = Fin (-1)
  ∧ map customerNo opps = ["Y"]
  ∧ ¬ (inject_Z (Z.of_nat (length opps)) <= -1)%Q
  ∧ JsNum.leb (JsNum.ofZ (Z.of_nat (length opps)))
      (oppCountOf (reqOppCount (sampleRequest (Some "-1")))) = false.
Proof.
  cbv zeta. split; [by vm_compute|]. split; [by vm_compute|].
  split; [by vm_compute|]. split; [|by vm_compute].
  intros H. vm_compute in H. by apply H.
Qed.

(** ** The batched writer *)








(** ** The streaming reader *)



Lemma streamParseCsv_snoc {St : Type} (onRow : St → row → nat → St * bool)
    (rows : list stepResult) (x : stepResult) (st : St) :
  streamParseCsv onRow (rows ++ [x]) st
  = streamStep onRow (streamParseCsv onRow rows st) x.
Proof. unfold streamParseCsv. by rewrite foldl_app. Qed.

Lemma streamParseCsv_rowCount {St : Type}
    (onRow : St → row → nat → St * bool) (rows : list stepResult) (st : St) :
  rowCount (streamParseCsv onRow rows st).2 = length rows.
Proof.
  induction rows as [|x rows IH] using rev_ind; [done|].
  rewrite streamParseCsv_snoc, length_app. simpl.
  destruct (streamParseCsv onRow rows st) as [st' c]. simpl in *.
  destruct (data x) as [[|y r]|]; simpl; try lia.
  destruct (onRow st' (y :: r) (S (rowCount c))). simpl. lia.
Qed.

(** ** The header pass *)







Lemma elem_of_foldl_union {X : Type} (f : X → string) (l : list X)
    (k : string) :
  k ∈ foldl (λ (acc : gset string) x, {[f x]} ∪ acc) ∅ l
  ↔ ∃ x, x ∈ l ∧ f x = k.
Proof.
  induction l as [|y l IH] using rev_ind.
  - simpl. split; [set_solver|]. intros (x & Hx & _). by apply elem_of_nil in Hx.
  - rewrite foldl_app. simpl. rewrite elem_of_union, elem_of_singleton, IH.
    split.
    + intros [->|(x & Hx & Hf)].
      * exists y. split; [apply elem_of_app; right; by left | done].
      * exists x. split; [apply elem_of_app; by left | done].
    + intros (x & [Hx|Hx%list_elem_of_singleton]%elem_of_app & Hf).
      * right. by exists x.
      * left. by subst.
Qed.

Lemma elem_of_inRangeOf (cfg : config) (clk : clock) (hh : list stepResult)
    (k : string) :
  k ∈ inRangeOf cfg clk hh
  ↔ ∃ i r, (i, r) ∈ records hh ∧ headerKey r = k
           ∧ rowVerdict cfg clk r = HAccepted.
Proof.
  unfold inRangeOf. rewrite elem_of_foldl_union. unfold acceptedHeaders.
  split.
  - intros ([i r] & [Hacc Hin]%list_elem_of_filter & Hk). exists i, r.
    split_and!; try done. unfold headerAccepted in Hacc. simpl in Hacc.
    by destruct (rowVerdict cfg clk r).
  - intros (i & r & Hin & Hk & Hv). exists (i, r). split; [|done].
    apply list_elem_of_filter. split; [|done].
    unfold headerAccepted. simpl. by rewrite Hv.
Qed.

(** ** The detail pass *)




(** ** The totals pass and the whole run *)





(** What the header pass hands back does not tell the rows skipped for a
    missing invoice number from the rows skipped for their date: a file with
    one row of the first kind and a file with one row of the second kind give
    the same counters and the same set. *)
Lemma header_skip_causes_not_separated :
  ¬ ∃ missingKey outOfWindow : parseCounts * nat * gset string → nat,
      ∀ hh,
        missingKey (headerOutput sampleConfig sampleClock hh ∅)
        = countVerdict sampleConfig sampleClock HMissingKey hh
        ∧ outOfWindow (headerOutput sampleConfig sampleClock hh ∅)
          = countVerdict sampleConfig sampleClock HOutOfWindow hh.
Proof.
  intros (f & g & H).
  destruct (H [parsed [("InvoiceNo", ""); ("InvoiceDate", "06/15/2025")]])
    as [Ha _].
  destruct (H [parsed [("InvoiceNo", "INV2"); ("InvoiceDate", "01/31/2020")]])
    as [Hb _].
  vm_compute in Ha, Hb. congruence.
Qed.

(** ** Amounts *)

Lemma parseNumber_finite (v : option string) :
  ∃ q, parseNumber v = Fin q.
Proof.
  unfold parseNumber. destruct (String.eqb (cleanStr v) ""); [by eexists|].
  destruct (JsNum.Number _) as [| | |q]; simpl; by eexists.
Qed.






(** ** The insertion-ordered map *)







(** ** Merchandise totals *)






(** ** The store under merge writes *)








(** ** The window *)

Lemma rowVerdict_accepted (cfg : config) (clk : clock) (h : row) :
  rowVerdict cfg clk h = HAccepted
  ↔ headerKey h ≠ ""
    ∧ ∃ d, headerDate h = Some d ∧ cutoffDate clk (yearsBack cfg) ≤ d.
Proof.
  unfold rowVerdict, inWindow.
  destruct (String.eqb_spec (headerKey h) "") as [He|He].
  { split; [done | by intros [? _]]. }
  destruct (headerDate h) as [d|].
  - destruct (d <? cutoffDate clk (yearsBack cfg)) eqn:E; simpl.
    + apply Z.ltb_lt in E. split; [done|].
      intros [_ (d' & [= <-] & Hd)]. lia.
    + apply Z.ltb_ge in E. split; [|done]. intros _. split; [done|].
      exists d. by split.
  - split; [done|]. by intros [_ (d & ? & _)].
Qed.









(** At the edges of the window: the line of an invoice dated after the
    day of the run is stored, though the date of its header is not between
    the cutoff and that day; and the line of an invoice in the window that
    has neither item code nor description is not stored. *)
Lemma detail_window_edges :
  let res := importInvoices sampleConfig sampleClock edgeHeaders edgeDetails ∅ in
  parseUSDate (Some "01/01/2030") = Some (daysFromCivil 2030 1 1)
  ∧ today sampleClock < daysFromCivil 2030 1 1
  ∧ finalStore res !! "invoices/INV9/lines/INV9__1" ≫= (.!! "itemCode")
    = Some (VStr "K604")
  ∧ parseUSDate (Some "06/15/2025") = Some (daysFromCivil 2025 6 15)
  ∧ cutoffDate sampleClock (yearsBack sampleConfig)
    ≤ daysFromCivil 2025 6 15 ≤ today sampleClock
  ∧ finalStore res !! "invoices/INV1/lines/INV1__7" = None
  ∧ linesWritten res = 1%nat.
Proof. cbv zeta. split_and!; by vm_compute. Qed.

(** ** Aggregates *)





(** ** Case-insensitive field access *)

Lemma getKey_Some (r : row) (key v : string) :
  getKey r key = Some v → (key, v) ∈ r.
Proof.
  unfold getKey. induction r as [|[k w] r IH]; simpl; [done|].
  destruct (String.eqb k key) eqn:E; simpl.
  - apply String.eqb_eq in E as ->. intros [= ->]. by left.
  - intros H. right. by apply IH.
Qed.

Lemma getKey_None (r : row) (key : string) :
  getKey r key = None ↔ ∀ v, (key, v) ∉ r.
Proof.
  unfold getKey. induction r as [|[k w] r IH]; simpl.
  - split; [intros _ v; apply not_elem_of_nil | done].
  - destruct (String.eqb k key) eqn:E; simpl.
    + apply String.eqb_eq in E as ->. split; [done|].
      intros H. destruct (H w). by left.
    + apply String.eqb_neq in E. rewrite IH. split.
      * intros H v [[= ? ?]|Hin]%elem_of_cons; [done|]. by apply (H v).
      * intros H v Hin. apply (H v). by right.
Qed.

Lemma length_mapChars (f : ascii → ascii) (s : string) :
  String.length (JsStr.mapChars f s) = String.length s.
Proof. induction s as [|c s IH]; simpl; [done | by rewrite IH]. Qed.

Lemma find_first {X : Type} (p : X → bool) (l : list X) :
  match find p l with
  | Some x => ∃ l1 l2, l = l1 ++ x :: l2 ∧ p x = true
                       ∧ ∀ y, y ∈ l1 → p y = false
  | None => ∀ y, y ∈ l → p y = false
  end.
Proof.
  induction l as [|a l IH]; simpl.
  - intros y Hy. by apply elem_of_nil in Hy.
  - destruct (p a) eqn:Ha.
    + exists [], l. split_and!; [done..|]. intros y Hy. by apply elem_of_nil in Hy.
    + destruct (find p l) as [x|].
      * destruct IH as (l1 & l2 & -> & Hx & Hl1).
        exists (a :: l1), l2. split_and!; [done..|].
        intros y [->|Hy]%elem_of_cons; [done | by apply Hl1].
      * intros y [->|Hy]%elem_of_cons; [done | by apply IH].
Qed.

Lemma NoDup_fmap_eq {X Y : Type} (f : X → Y) (l : list X) (x y : X) :
  NoDup (f <$> l) → x ∈ l → y ∈ l → f x = f y → x = y.
Proof.
  induction l as [|a l IH]; [by intros _ ?%elem_of_nil|].
  rewrite fmap_cons. intros [Ha Hnd]%NoDup_cons Hx Hy Hf.
  apply elem_of_cons in Hx as [->|Hx], Hy as [->|Hy]; [done| | |by apply IH].
  - exfalso. apply Ha. rewrite Hf. by apply list_elem_of_fmap_2.
  - exfalso. apply Ha. rewrite <- Hf. by apply list_elem_of_fmap_2.
Qed.

(** X1. [ciGet] looks a column up by name without regard to case: an exact
    match is returned as it is; the answer is [undefined] exactly when no
    column name equals the name once both are in lower case; what it returns
    is always the value of such a column, and when no two columns differ by
    case only, it is the value of the one that matches. *)
Theorem ciGet_case_insensitive (r : row) (key : string) :
  (∀ v, getKey r key = Some v → ciGet r key = Some v)
  ∧ (ciGet r key = None
     ↔ ∀ k v, (k, v) ∈ r → JsStr.toLowerCase k ≠ JsStr.toLowerCase key)
  ∧ (∀ v, ciGet r key = Some v →
          ∃ k, (k, v) ∈ r ∧ JsStr.toLowerCase k = JsStr.toLowerCase key)
  ∧ (NoDup ((λ kv, JsStr.toLowerCase kv.1) <$> r) →
     ∀ k v, (k, v) ∈ r → JsStr.toLowerCase k = JsStr.toLowerCase key →
            ciGet r key = Some v).
Proof.
  assert (∀ found, JsStr.toLowerCase found = JsStr.toLowerCase key →
                   found = "" → key = "") as Hempty.
  { intros found Hl ->. apply (f_equal String.length) in Hl.
    unfold JsStr.toLowerCase in Hl. rewrite !length_mapChars in Hl.
    by destruct key. }
  assert (ciGet r key = None
     ↔ ∀ k v, (k, v) ∈ r → JsStr.toLowerCase k ≠ JsStr.toLowerCase key)
    as Hnone.
  { unfold ciGet. destruct (getKey r key) as [v|] eqn:Hexact.
    { split; [done|]. intros H. apply getKey_Some in Hexact.
      by destruct (H key v Hexact). }
    pose proof (find_first
      (λ kv : string * string,
         String.eqb (JsStr.toLowerCase kv.1) (JsStr.toLowerCase key)) r) as Hf.
    destruct (find _ r) as [[found w]|].
    + destruct Hf as (l1 & l2 & Hr & Hp%String.eqb_eq & _). simpl in Hp.
      assert ((found, w) ∈ r) as Hin
        by (rewrite Hr; apply elem_of_app; right; by left).
      destruct (String.eqb_spec found "") as [He|He].
      * exfalso. pose proof (Hempty found Hp He) as ->. subst found.
        by apply (proj1 (getKey_None r "") Hexact w).
      * split.
        -- intros Hn. exfalso. by apply (proj1 (getKey_None r found) Hn w).
        -- intros H. exfalso. by apply (H found w).
    + split; [|done]. intros _ k v Hin Hl.
      specialize (Hf (k, v) Hin). simpl in Hf.
      by apply String.eqb_neq in Hf. }
  assert (∀ v, ciGet r key = Some v →
          ∃ k, (k, v) ∈ r ∧ JsStr.toLowerCase k = JsStr.toLowerCase key)
    as Hsome.
  { unfold ciGet. intros v. destruct (getKey r key) as [v'|] eqn:Hexact.
    { intros [= ->]. exists key. split; [by apply getKey_Some | done]. }
    pose proof (find_first
      (λ kv : string * string,
         String.eqb (JsStr.toLowerCase kv.1) (JsStr.toLowerCase key)) r) as Hf.
    destruct (find _ r) as [[found w]|]; [|done].
    destruct Hf as (l1 & l2 & Hr & Hp%String.eqb_eq & _). simpl in Hp.
    destruct (String.eqb found ""); [done|].
    intros Hv%getKey_Some. by exists found. }
  split_and!; [|done|done|].
  - unfold ciGet. by intros v ->.
  - intros Hnd k v Hin Hl.
    destruct (ciGet r key) as [v'|] eqn:Hc.
    + destruct (Hsome v' eq_refl) as (k' & Hin' & Hl').
      assert ((k', v') = (k, v)) as [= _ ->]; [|done].
      apply (NoDup_fmap_eq (λ kv : string * string, JsStr.toLowerCase kv.1) r);
        [done..|]. simpl. congruence.
    + by destruct (proj1 Hnone eq_refl k v Hin).
Qed.

(** ** Trimming and document ids *)

Lemma app_nil_r_string (s : string) : s +:+ "" = s.
Proof. induction s as [|c s IH]; [done|]. by rewrite app_cons, IH. Qed.

Lemma app_assoc_string (a b c : string) : (a +:+ b) +:+ c = a +:+ b +:+ c.
Proof. induction a as [|x a IH]; [done|]. by rewrite !app_cons, IH. Qed.

Lemma rev_onto_app (s acc : string) :
  JsStr.rev_onto s acc = JsStr.rev s +:+ acc.
Proof.
  unfold JsStr.rev. revert acc.
  induction s as [|c s IH]; intros acc; [done|].
  simpl. rewrite (IH (String c acc)), (IH (String c "")).
  by rewrite app_assoc_string.
Qed.

Lemma rev_cons (c : ascii) (s : string) :
  JsStr.rev (String c s) = JsStr.rev s +:+ String c "".
Proof. unfold JsStr.rev at 1. simpl. apply rev_onto_app. Qed.

Lemma rev_app (a b : string) :
  JsStr.rev (a +:+ b) = JsStr.rev b +:+ JsStr.rev a.
Proof.
  induction a as [|c a IH].
  - by rewrite app_empty_l, app_nil_r_string.
  - by rewrite app_cons, !rev_cons, IH, app_assoc_string.
Qed.

Lemma rev_involutive (s : string) : JsStr.rev (JsStr.rev s) = s.
Proof.
  induction s as [|c s IH]; [done|].
  by rewrite rev_cons, rev_app, IH.
Qed.

Lemma rev_empty (s : string) : JsStr.rev s = "" → s = "".
Proof. intros H. by rewrite <- (rev_involutive s), H. Qed.

Lemma trimStart_app (a b : string) :
  JsStr.trimStart (a +:+ b)
  = if String.eqb (JsStr.trimStart a) "" then JsStr.trimStart b
    else JsStr.trimStart a +:+ b.
Proof.
  induction a as [|c a IH]; [done|].
  rewrite app_cons. simpl. by destruct (JsStr.isSpace c).
Qed.

(** [trimEnd], from the first character on. *)
Lemma trimEnd_cons (c : ascii) (r : string) :
  JsStr.trimEnd (String c r)
  = if String.eqb (JsStr.trimEnd r) "" then
      (if JsStr.isSpace c then "" else String c "")
    else String c (JsStr.trimEnd r).
Proof.
  unfold JsStr.trimEnd. rewrite rev_cons, trimStart_app.
  destruct (String.eqb_spec (JsStr.trimStart (JsStr.rev r)) "") as [He|He].
  - rewrite He. simpl. by destruct (JsStr.isSpace c).
  - destruct (String.eqb_spec (JsStr.rev (JsStr.trimStart (JsStr.rev r))) "")
      as [He'|_]; [by apply rev_empty in He'|].
    by rewrite rev_app.
Qed.

Lemma trimEnd_idem (s : string) :
  JsStr.trimEnd (JsStr.trimEnd s) = JsStr.trimEnd s.
Proof.
  induction s as [|c s IH]; [done|].
  rewrite trimEnd_cons.
  destruct (String.eqb_spec (JsStr.trimEnd s) "") as [He|He].
  - destruct (JsStr.isSpace c) eqn:Hc; [done|].
    rewrite trimEnd_cons. simpl. by rewrite Hc.
  - rewrite trimEnd_cons, IH. by rewrite (eqb_empty_false _ He).
Qed.




(** A character map that keeps white space apart commutes with trimming. *)
Lemma mapChars_app (f : ascii → ascii) (a b : string) :
  JsStr.mapChars f (a +:+ b) = JsStr.mapChars f a +:+ JsStr.mapChars f b.
Proof. induction a as [|c a IH]; [done|]. rewrite !app_cons. simpl. by rewrite IH. Qed.




Lemma replaceAll_slash (s : string) :
  JsStr.replaceAll "/" "-" s = JsStr.mapChars slashToDash s.
Proof.
  induction s as [|c s IH]; [done|]. simpl. unfold slashToDash at 1.
  destruct (Ascii.eqb c "/"); by rewrite IH.
Qed.



Lemma includes_cons_false (t : string) (c : ascii) (s : string) :
  JsStr.includes t (String c s) = false → JsStr.includes t s = false.
Proof. simpl. by intros [_ ?]%orb_false_iff. Qed.



(** ** Raw fields *)




(** ** Amounts are finite *)

(** X4. An amount read by [parseNumber] or by [toNumber] is never NaN and
    never an infinity: a missing or blank value gives 0, and so does every
    text that is not a number or that is too large for a number. *)
Theorem amounts_are_finite :
  (∀ v, ∃ q, parseNumber v = Fin q)
  ∧ (∀ v, ∃ q, toNumber v = Fin q)
  ∧ (∀ v, cleanStr v = "" → parseNumber v = Fin 0)
  ∧ toNumber AUndefined = Fin 0
  ∧ (∀ v, JsNum.isFinite
            (JsNum.Number
               (JsStr.replaceAll "$" ""
                  (JsStr.replaceAll "," "" (cleanStr v)))) = false →
          parseNumber v = Fin 0)
  ∧ (∀ n, JsNum.isFinite n = false → toNumber (ANumber n) = Fin 0)
  ∧ parseNumber (Some "1e999") = Fin 0
  ∧ parseNumber (Some "-Infinity") = Fin 0
  ∧ parseNumber (Some "12.5-") = Fin 0
  ∧ parseNumber (Some " -1,234.50 ") = Fin (-2469 # 2).
Proof.
  split_and!.
  - apply parseNumber_finite.
  - intros [|n|s]; simpl.
    + by eexists.
    + destruct n; simpl; by eexists.
    + destruct (JsNum.Number _); simpl; by eexists.
  - intros v Hv. unfold parseNumber. by rewrite Hv.
  - done.
  - intros v Hv. unfold parseNumber.
    destruct (String.eqb (cleanStr v) ""); [done|]. by rewrite Hv.
  - intros n Hn. simpl. by rewrite Hn.
  - by vm_compute.
  - by vm_compute.
  - by vm_compute.
  - by vm_compute.
Qed.

(** ** Batches *)




(** ** The batch limit does not show in the result *)




(** ** How long a commit can take *)

Lemma waitsOf_retryEvents (a n : nat) :
  waitsOf (retryEvents a n) = map (λ k, 250 * k * k)%nat (seq a n).
Proof.
  unfold retryEvents, waitsOf. rewrite omap_app. simpl.
  rewrite app_nil_r. revert a. induction n as [|n IHn]; intros a; [done|].
  simpl. by rewrite IHn.
Qed.

Lemma commitsOf_retryEvents (a n : nat) :
  commitsOf (retryEvents a n) = seq a (S n).
Proof.
  unfold retryEvents, commitsOf. rewrite omap_app. simpl.
  revert a. induction n as [|n IHn]; intros a.
  - simpl. by rewrite Nat.add_0_r.
  - cbn [seq flat_map app omap]. simpl. f_equal.
    replace (a + S n)%nat with (S a + n)%nat by lia. apply IHn.
Qed.

Lemma sum_waits_le (r : nat) :
  (r ≤ 6)%nat →
  Z.of_nat (sum_list (map (λ k, 250 * k * k)%nat (seq 1 r))) ≤ 22750.
Proof.
  intros Hr.
  do 7 (destruct r as [|r]; [by vm_compute|]). lia.
Qed.

(** X7. A call of [commitWithRetry] ends after at most seven commit attempts
    and at most 22 750 ms of waiting in all.  It succeeds exactly when one of
    the first seven attempts succeeds and every attempt before that one
    failed with a transient signature. *)
Theorem commitWithRetry_bounded (transient : string → bool)
    (commit : nat → option string) :
  ∃ evs res,
    commitWithRetry transient commit 7 = Some (evs, res)
    ∧ (length (commitsOf evs) ≤ 7)%nat
    ∧ Z.of_nat (sum_list (waitsOf evs)) ≤ 22750
    ∧ (res = Committed
       ↔ ∃ k, (1 ≤ k ≤ 7)%nat ∧ commit k = None
              ∧ ∀ j, (1 ≤ j < k)%nat →
                     ∃ msg, commit j = Some msg ∧ transient msg = true).
Proof.
  destruct (commitWithRetryFrom_spec transient commit 7 1 ltac:(lia) ltac:(lia))
    as (r & res & Heq & Hretry & Hres).
  assert (r ≤ 6)%nat as Hr.
  { destruct r as [|r]; [lia|]. destruct (Hretry (S r)) as [? _]; lia. }
  exists (retryEvents 1 r), res. split; [exact Heq|]. split_and!.
  - rewrite commitsOf_retryEvents, length_seq. lia.
  - rewrite waitsOf_retryEvents. by apply sum_waits_le.
  - split.
    + intros ->. exists (S r). split_and!; [lia | lia | exact Hres |].
      intros j Hj. apply Hretry. lia.
    + intros (k & Hk & Hnone & Hbefore).
      destruct res as [|msg]; [done|]. exfalso.
      destruct Hres as [Hc Hwhy]. simpl in Hc.
      destruct (decide (S r < k)%nat) as [Hlt|Hge].
      * destruct (Hbefore (S r)) as (msg' & Hc' & Htr); [lia|].
        rewrite Hc in Hc'. injection Hc' as <-.
        destruct Hwhy as [Hnt|Hgt]; [congruence | lia].
      * destruct (decide (k = S r)) as [->|Hne]; [congruence|].
        destruct (Hretry k) as [_ (msg' & Hc' & _)]; [lia | congruence].
Qed.


(** ** Counters of a run *)





(** ** The index builder *)






















(** When two pairs share a composite key, they share one entry: the item
    K604__0010 under owner 0007 and the item K604 under owner 0010__0007 end
    up in one document, with the accounts of both. *)
Lemma index_key_clash :
  contributions sampleConfig sampleClock clashHeaderTable clashDetailTable
  = [("K604__0010", "0007", "C1"); ("K604", "0010__0007", "C2")]
  ∧ (λ w, (wpath w, wdata w !! "itemCode", wdata w !! "customerNos"))
      <$> indexWrites sampleConfig sampleClock clashHeaderTable clashDetailTable
    = [("itemCustomerIndex/K604__0010__0007", Some (VStr "K604__0010"),
        Some (VArr ["C1"; "C2"]))].
Proof. split; by vm_compute. Qed.

(** X14. The header table of the index builder: an invoice number is in
    [invMap] with an account and an owner code exactly when some header row
    has that invoice number, a date that is not before the cutoff, an account
    and an owner code; what is kept comes from such a row.  A row that has
    the InvoiceNo column and is kept here is one that the header pass of the
    import script accepts, under the same invoice number. *)
Theorem index_headers_in_window (cfg : config) (clk : clock)
    (hhRows : list row) :
  let customerOf (r : row) :=
    cleanStr (orField (ciGet r "CustomerNo") (ciGet r "CustomerNumber")) in
  let ownerOf (r : row) :=
    padSalesperson
      (orField (ciGet r "SalespersonNo")
         (orField (ciGet r "SalesmanNo") (ciGet r "Salesperson"))) in
  let qualifies (r : row) :=
    indexInvoiceNo r ≠ ""
    ∧ (∃ d, headerDate r = Some d ∧ cutoffDate clk (yearsBack cfg) ≤ d)
    ∧ customerOf r ≠ "" ∧ ownerOf r ≠ "" in
  (∀ k info,
     indexHeaders cfg clk hhRows !! k = Some info →
     ∃ r, r ∈ hhRows ∧ qualifies r ∧ indexInvoiceNo r = k
          ∧ hCustomerNo info = customerOf r
          ∧ hSalespersonNo info = ownerOf r)
  ∧ (∀ r, r ∈ hhRows → qualifies r →
          is_Some (indexHeaders cfg clk hhRows !! indexInvoiceNo r))
  ∧ (∀ r, qualifies r → ciGet r "InvoiceNo" ≠ None →
          headerKey r = indexInvoiceNo r
          ∧ rowVerdict cfg clk r = HAccepted).
Proof.
  intros customerOf ownerOf qualifies.
  assert (∀ r m,
            (qualifies r
             ∧ indexHeader cfg clk m r
               = <[indexInvoiceNo r :=
                     {| hCustomerNo := customerOf r;
                        hSalespersonNo := ownerOf r |}]> m)
            ∨ (¬ qualifies r ∧ indexHeader cfg clk m r = m)) as Hstep.
  { intros r m. unfold indexHeader, qualifies. fold (customerOf r) (ownerOf r).
    destruct (String.eqb_spec (indexInvoiceNo r) "") as [Hk|Hk].
    { right. split; [|done]. by intros [? _]. }
    destruct (headerDate r) as [d|];
      [|right; split; [|done]; by intros (_ & (? & ? & _) & _)].
    destruct (d <? cutoffDate clk (yearsBack cfg)) eqn:Hd.
    { apply Z.ltb_lt in Hd. right. split; [|done].
      intros (_ & (d' & [= <-] & ?) & _). lia. }
    apply Z.ltb_ge in Hd.
    destruct (String.eqb_spec (customerOf r) "") as [Hc|Hc].
    { right. split; [|done]. by intros (_ & _ & ? & _). }
    destruct (String.eqb_spec (ownerOf r) "") as [Ho|Ho].
    { right. split; [|done]. by intros (_ & _ & _ & ?). }
    left. split; [|done].
    split_and!; [done| |done|done]. by exists d. }
  split_and!.
  - unfold indexHeaders.
    induction hhRows as [|r hhRows IH] using rev_ind; [done|].
    intros k info. rewrite foldl_app. simpl.
    destruct (Hstep r (foldl (indexHeader cfg clk) ∅ hhRows))
      as [[Hq ->]|[Hq ->]].
    + destruct (decide (indexInvoiceNo r = k)) as [<-|Hne].
      * rewrite lookup_insert_eq. intros [= <-]. exists r.
        split_and!; try done. apply elem_of_app. right. by left.
      * rewrite lookup_insert_ne by done. intros Hl.
        destruct (IH k info Hl) as (r' & Hin & H). exists r'.
        split; [apply elem_of_app; by left | done].
    + intros Hl. destruct (IH k info Hl) as (r' & Hin & H). exists r'.
      split; [apply elem_of_app; by left | done].
  - unfold indexHeaders.
    induction hhRows as [|r0 hhRows IH] using rev_ind.
    { intros r Hin. by apply elem_of_nil in Hin. }
    intros r Hin Hq. rewrite foldl_app. simpl.
    destruct (Hstep r0 (foldl (indexHeader cfg clk) ∅ hhRows))
      as [[Hq0 ->]|[Hq0 ->]].
    2:{ apply elem_of_app in Hin as [Hin|Hin]; [by apply IH|].
        apply list_elem_of_singleton in Hin. by subst. }
    apply elem_of_app in Hin as [Hin|Hin].
    2:{ apply list_elem_of_singleton in Hin. subst r0.
        rewrite lookup_insert_eq. by eexists. }
    destruct (decide (indexInvoiceNo r0 = indexInvoiceNo r)) as [->|Hne].
    + rewrite lookup_insert_eq. by eexists.
    + rewrite lookup_insert_ne by done. by apply IH.
  - intros r (Hk & (d & Hd & Hle) & _) Hcol.
    assert (headerKey r = indexInvoiceNo r) as Heq.
    { unfold headerKey, indexInvoiceNo.
      by destruct (ciGet r "InvoiceNo"). }
    split; [done|]. apply rowVerdict_accepted.
    split; [congruence | by exists d].
Qed.









(** ** The opportunities of the lookup route *)



Lemma geb_fin (qa qb : Q) :
  JsNum.geb (Fin qa) (Fin qb) = true ↔ (qb <= qa)%Q.
Proof.
  unfold JsNum.geb, JsNum.leb. simpl. destruct (qb ?= qa)%Q eqn:E.
  - split; [|done]. intros _. apply (proj2 (Qeq_alt _ _)) in E.
    rewrite E. apply Qle_refl.
  - split; [|done]. intros _. apply (proj2 (Qlt_alt _ _)) in E.
    by apply Qlt_le_weak.
  - split; [done|]. intros H. apply (proj2 (Qgt_alt _ _)) in E.
    by destruct (Qlt_not_le _ _ E).
Qed.










Lemma dedupeById_spec (docs : list customerDoc) :
  NoDup (cid <$> dedupeById docs)
  ∧ dedupeById docs `sublist_of` docs
  ∧ (∀ d, d ∈ docs → cid d ∈ cid <$> dedupeById docs)
  ∧ (∀ d, d ∈ dedupeById docs →
          ∃ l1 l2, docs = l1 ++ d :: l2 ∧ cid d ∉ cid <$> l1).
Proof.
  unfold dedupeById.
  set (step := λ (st : gset string * list customerDoc) d,
                 if decide (cid d ∈ st.1) then st
                 else ({[cid d]} ∪ st.1, st.2 ++ [d])).
  assert (∀ l, let st := foldl step (∅, []) l in
               (∀ i, i ∈ st.1 ↔ i ∈ cid <$> st.2)
               ∧ NoDup (cid <$> st.2)
               ∧ st.2 `sublist_of` l
               ∧ (∀ d, d ∈ l → cid d ∈ cid <$> st.2)
               ∧ (∀ d, d ∈ st.2 →
                       ∃ l1 l2, l = l1 ++ d :: l2 ∧ cid d ∉ cid <$> l1))
    as H.
  { induction l as [|d l IH] using rev_ind.
    { simpl. split_and!; [set_solver|constructor|done| |].
      - intros d Hd. by apply elem_of_nil in Hd.
      - intros d Hd. by apply elem_of_nil in Hd. }
    cbv zeta. rewrite foldl_app. simpl.
    destruct IH as (Hseen & Hnd & Hsub & Hall & Hfirst).
    set (st := foldl step (∅, []) l) in *.
    assert (∀ d', d' ∈ st.2 →
                  ∃ l1 l2, l ++ [d] = l1 ++ d' :: l2 ∧ cid d' ∉ cid <$> l1)
      as Hfirst'.
    { intros d' Hd'. destruct (Hfirst d' Hd') as (l1 & l2 & -> & Hl1).
      exists l1, (l2 ++ [d]). split; [|done].
      by rewrite <- (assoc_L (++)). }
    destruct (decide (cid d ∈ st.1)) as [Hin|Hin].
    - assert (step st d = st) as ->
        by (unfold step; by rewrite decide_True).
      split_and!; [done|done| | |done].
      + by apply sublist_inserts_r.
      + intros d' [Hd'|Hd']%elem_of_app; [by apply Hall|].
        apply list_elem_of_singleton in Hd'. subst d'. by apply Hseen.
    - assert (step st d = ({[cid d]} ∪ st.1, st.2 ++ [d])) as ->
        by (unfold step; by rewrite decide_False).
      simpl. split_and!.
      + intros i. rewrite fmap_app, elem_of_app, elem_of_union, Hseen.
        simpl. rewrite list_elem_of_singleton, elem_of_singleton. tauto.
      + rewrite fmap_app. apply NoDup_app. split_and!; [done| |].
        * intros i Hi [->|[]%elem_of_nil]%elem_of_cons.
          by apply Hin, Hseen.
        * simpl. apply NoDup_singleton.
      + by apply sublist_app.
      + intros d' [Hd'|Hd']%elem_of_app.
        * rewrite fmap_app. apply elem_of_app. left. by apply Hall.
        * apply list_elem_of_singleton in Hd'. subst d'.
          rewrite fmap_app. apply elem_of_app. right. by left.
      + intros d' [Hd'|Hd']%elem_of_app; [by apply Hfirst'|].
        apply list_elem_of_singleton in Hd'. subst d'.
        exists l, []. split; [done|].
        intros (d'' & He & Hd'')%list_elem_of_fmap.
        apply Hin, Hseen. rewrite He. by apply Hall. }
  destruct (H docs) as (_ & Hnd & Hsub & Hall & Hfirst). by split_and!.
Qed.




Lemma sublist_same_length {X : Type} (l1 l2 : list X) :
  l1 `sublist_of` l2 → (length l2 ≤ length l1)%nat → l1 = l2.
Proof.
  induction 1 as [|x l1 l2 Hsub IH|x l1 l2 Hsub IH]; simpl; intros Hlen.
  - done.
  - f_equal. apply IH. lia.
  - apply sublist_length in Hsub. lia.
Qed.

(** X18. Merging the answers of the two owner queries: every account that
    either query returned is kept once, it is the first document with its
    identifier that is kept, and the order of the documents is not changed.
    Documents with distinct identifiers are all kept, and merging what has
    been merged changes nothing. *)
Theorem dedupeById_first_wins (docs : list customerDoc) :
  NoDup (cid <$> dedupeById docs)
  ∧ dedupeById docs `sublist_of` docs
  ∧ (∀ d, d ∈ docs → cid d ∈ cid <$> dedupeById docs)
  ∧ (∀ d, d ∈ dedupeById docs →
          ∃ l1 l2, docs = l1 ++ d :: l2 ∧ ¬ (cid d ∈ cid <$> l1))
  ∧ (NoDup (cid <$> docs) → dedupeById docs = docs)
  ∧ dedupeById (dedupeById docs) = dedupeById docs.
Proof.
  destruct (dedupeById_spec docs) as (Hnd & Hsub & Hall & Hfirst).
  assert (∀ l, NoDup (cid <$> l) → dedupeById l = l) as Hid.
  { intros l Hl.
    destruct (dedupeById_spec l) as (_ & Hsub' & Hall' & _).
    apply sublist_same_length; [done|].
    rewrite <- (length_fmap cid l), <- (length_fmap cid (dedupeById l)).
    apply submseteq_length, NoDup_submseteq; [done|].
    intros i (d & -> & Hd)%list_elem_of_fmap. by apply Hall'. }
  split_and!; [done|done|done|done|by apply Hid|by apply Hid].
Qed.

(** ** One buyer per tier *)

Lemma gtb_fin (qa qb : Q) :
  JsNum.gtb (Fin qa) (Fin qb) = true ↔ (qb < qa)%Q.
Proof.
  unfold JsNum.gtb, JsNum.ltb. simpl. destruct (qb ?= qa)%Q eqn:E.
  - split; [done|]. intros H. apply (proj1 (Qlt_alt _ _)) in H. congruence.
  - split; [|done]. intros _. by apply (proj2 (Qlt_alt _ _)).
  - split; [done|]. intros H. apply (proj1 (Qlt_alt _ _)) in H. congruence.
Qed.

Lemma tierSet_eq (m : tier → option Buyer) (t : tier) (b : Buyer) :
  tierSet m t b t = Some b.
Proof. unfold tierSet. by destruct t. Qed.

Lemma tierSet_ne (m : tier → option Buyer) (t t' : tier) (b : Buyer) :
  t' ≠ t → tierSet m t b t' = m t'.
Proof. unfold tierSet. by destruct t, t'. Qed.

Lemma bestStep_other (m : tier → option Buyer) (b : Buyer) (t : tier) :
  t ≠ buyerTier b → bestStep m b t = m t.
Proof.
  intros Ht. unfold bestStep. destruct (m (buyerTier b)) as [curr|].
  - destruct (JsNum.gtb _ _); [by apply tierSet_ne | done].
  - by apply tierSet_ne.
Qed.

Lemma bestByTierOf_inv (l : list Buyer) (t : tier) :
  Forall (λ b, ∃ q, sales25 b = Fin q) l →
  match bestByTierOf l t with
  | None => ∀ c, c ∈ l → buyerTier c ≠ t
  | Some b =>
      buyerTier b = t
      ∧ (∃ l1 l2, l = l1 ++ b :: l2
                  ∧ ∀ c, c ∈ l1 → buyerTier c = t →
                         JsNum.ltb (sales25 c) (sales25 b) = true)
      ∧ ∀ c, c ∈ l → buyerTier c = t →
             JsNum.geb (sales25 b) (sales25 c) = true
  end.
Proof.
  unfold bestByTierOf.
  induction l as [|x l IH] using rev_ind.
  { intros _ c Hc. by apply elem_of_nil in Hc. }
  intros [Hl Hx]%Forall_app. apply Forall_cons in Hx as [[qx Hx] _].
  specialize (IH Hl). rewrite foldl_app. simpl.
  set (m := foldl bestStep (λ _, None) l) in *.
  assert (t = buyerTier x ∨ t ≠ buyerTier x) as [->|Hne]
    by (destruct t, (buyerTier x); (by left) || (by right)).
  2:{ rewrite bestStep_other by done. destruct (m t) as [b|].
      - destruct IH as (Hb & (l1 & l2 & -> & Hl1) & Hmax). split_and!.
        + done.
        + exists l1, (l2 ++ [x]). split; [|done].
          by rewrite <- (assoc_L (++)).
        + intros c [Hc|Hc]%elem_of_app Hct; [by apply Hmax|].
          apply list_elem_of_singleton in Hc. by subst c.
      - intros c [Hc|Hc]%elem_of_app; [by apply IH|].
        apply list_elem_of_singleton in Hc. by subst c. }
  assert (JsNum.geb (sales25 x) (sales25 x) = true) as Hxx.
  { rewrite Hx. apply geb_fin. apply Qle_refl. }
  unfold bestStep. destruct (m (buyerTier x)) as [curr|] eqn:Em.
  - destruct IH as (Hb & (l1 & l2 & El & Hl1) & Hmax).
    assert (∃ qc, sales25 curr = Fin qc) as [qc Hqc].
    { apply (proj1 (Forall_forall _ _) Hl). rewrite El.
      apply elem_of_app. right. by left. }
    destruct (JsNum.gtb (sales25 x) (sales25 curr)) eqn:Eg.
    + rewrite tierSet_eq. rewrite Hx, Hqc in Eg. apply gtb_fin in Eg.
      split_and!; [done| |].
      * exists l, []. split; [done|]. intros c Hc Hct.
        destruct (proj1 (Forall_forall _ _) Hl c Hc) as [q Hq].
        pose proof (Hmax c Hc Hct) as Hle. rewrite Hqc, Hq in Hle.
        apply geb_fin in Hle. rewrite Hq, Hx.
        unfold JsNum.ltb. simpl.
        by rewrite (proj1 (Qlt_alt _ _) (Qle_lt_trans _ _ _ Hle Eg)).
      * intros c [Hc|Hc]%elem_of_app Hct.
        -- destruct (proj1 (Forall_forall _ _) Hl c Hc) as [q Hq].
           pose proof (Hmax c Hc Hct) as Hle. rewrite Hqc, Hq in Hle.
           apply geb_fin in Hle. rewrite Hq, Hx. apply geb_fin.
           apply Qlt_le_weak. by apply (Qle_lt_trans _ qc).
        -- apply list_elem_of_singleton in Hc. by subst c.
    + rewrite Em. split_and!; [done| |].
      * exists l1, (l2 ++ [x]). split; [|done].
        by rewrite El, <- (assoc_L (++)).
      * intros c [Hc|Hc]%elem_of_app Hct; [by apply Hmax|].
        apply list_elem_of_singleton in Hc. subst c.
        rewrite Hx, Hqc. apply geb_fin. apply Qnot_lt_le. intros H.
        apply gtb_fin in H. rewrite Hx, Hqc in Eg. congruence.
  - rewrite tierSet_eq. split_and!; [done| |].
    + exists l, []. split; [done|]. intros c Hc Hct.
      by destruct (IH c Hc).
    + intros c [Hc|Hc]%elem_of_app Hct; [by destruct (IH c Hc)|].
      apply list_elem_of_singleton in Hc. by subst c.
Qed.

Lemma elem_of_onePerTierOf (l : list Buyer) (b : Buyer) :
  b ∈ onePerTierOf l ↔ ∃ t, bestByTierOf l t = Some b.
Proof.
  unfold onePerTierOf. rewrite list_elem_of_omap. split.
  - intros (t & _ & H). by exists t.
  - intros (t & H). exists t. split; [|done]. destruct t; set_solver.
Qed.

(** X19. With [onePerTier], and the sales of the buyers being numbers, the
    buyers returned are buyers of the request, at most one of each tier, in
    the order A, B, C, D; every tier that has a buyer is there; the one
    returned for a tier has the highest sales of that tier, and among
    buyers with these sales it is the first.  Without [onePerTier] the
    buyers are returned as they are. *)
Theorem onePerTier_keeps_best (buyersRaw : list Buyer) :
  Forall (λ b, ∃ q, sales25 b = Fin q) buyersRaw →
  let buyers := buyersOf true buyersRaw in
  (buyerTier <$> buyers) `sublist_of` [A; B; C; D]
  ∧ (∀ b, b ∈ buyers → b ∈ buyersRaw)
  ∧ (∀ c, c ∈ buyersRaw →
          ∃ b, b ∈ buyers ∧ buyerTier b = buyerTier c
               ∧ JsNum.geb (sales25 b) (sales25 c) = true)
  ∧ (∀ b, b ∈ buyers →
          ∃ l1 l2, buyersRaw = l1 ++ b :: l2
                   ∧ ∀ c, c ∈ l1 → buyerTier c = buyerTier b →
                          JsNum.ltb (sales25 c) (sales25 b) = true)
  ∧ buyersOf false buyersRaw = buyersRaw.
Proof.
  intros Hfin buyers. subst buyers. unfold buyersOf.
  pose proof (λ t, bestByTierOf_inv buyersRaw t Hfin) as Hinv.
  split_and!; [| | | |done].
  - unfold onePerTierOf. simpl.
    pose proof (Hinv A) as HA. pose proof (Hinv B) as HB.
    pose proof (Hinv C) as HC. pose proof (Hinv D) as HD.
    destruct (bestByTierOf buyersRaw A) as [a|];
      destruct (bestByTierOf buyersRaw B) as [b|];
      destruct (bestByTierOf buyersRaw C) as [c|];
      destruct (bestByTierOf buyersRaw D) as [d|]; simpl;
      repeat match goal with
             | H : _ ∧ _ |- _ => destruct H as [-> _]
             end;
      repeat first [ apply sublist_skip | apply sublist_cons
                   | apply sublist_nil_l ].
  - intros b (t & Hb)%elem_of_onePerTierOf. specialize (Hinv t).
    rewrite Hb in Hinv. destruct Hinv as (_ & (l1 & l2 & -> & _) & _).
    apply elem_of_app. right. by left.
  - intros c Hc. pose proof (Hinv (buyerTier c)) as H.
    destruct (bestByTierOf buyersRaw (buyerTier c)) as [b|] eqn:Eb.
    + destruct H as (Hb & _ & Hmax). exists b. split_and!; [|done|].
      * apply elem_of_onePerTierOf. by eexists.
      * by apply Hmax.
    + by destruct (H c Hc).
  - intros b (t & Hb)%elem_of_onePerTierOf. specialize (Hinv t).
    rewrite Hb in Hinv. destruct Hinv as (Ht & (l1 & l2 & El & Hl1) & _).
    exists l1, l2. split; [done|]. intros c Hc Hct. apply Hl1; [done|].
    by rewrite Hct.
Qed.

Lemma onePerTier_keeps_best_witness :
  Forall (λ b, ∃ q, sales25 b = Fin q) sampleBuyerRows
  ∧ let buyers := buyersOf true sampleBuyerRows in
    (buyerTier <$> buyers) `sublist_of` [A; B; C; D]
    ∧ (∀ b, b ∈ buyers → b ∈ sampleBuyerRows)
    ∧ (∀ c, c ∈ sampleBuyerRows →
            ∃ b, b ∈ buyers ∧ buyerTier b = buyerTier c
                 ∧ JsNum.geb (sales25 b) (sales25 c) = true)
    ∧ (∀ b, b ∈ buyers →
            ∃ l1 l2, sampleBuyerRows = l1 ++ b :: l2
                     ∧ ∀ c, c ∈ l1 → buyerTier c = buyerTier b →
                            JsNum.ltb (sales25 c) (sales25 b) = true)
    ∧ buyersOf false sampleBuyerRows = sampleBuyerRows.
Proof.
  assert (Forall (λ b, ∃ q, sales25 b = Fin q) sampleBuyerRows) as H.
  { repeat constructor; eexists; vm_compute; reflexivity. }
  split; [exact H|]. exact (onePerTier_keeps_best sampleBuyerRows H).
Defined.

Example onePerTier_sample :
  customerNo <$> buyersOf true sampleBuyerRows = ["X"; "W"].
Proof. by vm_compute. Qed.

(** ** The owner code across the scripts *)

Lemma trimEnd_of_trim (s : string) : JsStr.trim s = s → JsStr.trimEnd s = s.
Proof.
  intros H. rewrite <- H at 1. unfold JsStr.trim. rewrite trimEnd_idem.
  exact H.
Qed.



Lemma isDigit_not_space (c : ascii) :
  JsStr.isDigit c = true → JsStr.isSpace c = false.
Proof. unfold JsStr.isDigit, JsStr.isSpace. lia. Qed.

Lemma trim_digits (d : string) :
  JsStr.allDigits d = true → JsStr.trim d = d.
Proof.
  intros Hd.
  assert (JsStr.trimEnd d = d) as He.
  { induction d as [|c r IH]; [done|].
    simpl in Hd. apply andb_true_iff in Hd as [Hc Hr].
    rewrite trimEnd_cons, (IH Hr), (isDigit_not_space c Hc).
    by destruct (String.eqb_spec r "") as [->|_]. }
  unfold JsStr.trim. destruct d as [|c r]; [done|].
  simpl in Hd. apply andb_true_iff in Hd as [Hc _].
  cbn [JsStr.trimStart]. by rewrite (isDigit_not_space c Hc).
Qed.






(** ** The window and the number of years *)

Lemma daysFromCivil_year_step (y m d : Z) :
  365 ≤ daysFromCivil (y + 1) m d - daysFromCivil y m d ≤ 366.
Proof.
  unfold daysFromCivil. cbv zeta. destruct (m <=? 2).
  - replace (y + 1 - 1) with (y - 1 + 1) by lia. generalize (y - 1).
    clear y. intros y. Z.div_mod_to_equations. lia.
  - Z.div_mod_to_equations. lia.
Qed.

Lemma daysFromCivil_year_mono (y1 y2 m d : Z) :
  y1 ≤ y2 → daysFromCivil y1 m d ≤ daysFromCivil y2 m d.
Proof.
  intros H. replace y2 with (y1 + Z.of_nat (Z.to_nat (y2 - y1))) by lia.
  generalize (Z.to_nat (y2 - y1)). clear y2 H. intros n.
  induction n as [|n IH]; [by rewrite Z.add_0_r|].
  replace (y1 + Z.of_nat (S n)) with (y1 + Z.of_nat n + 1) by lia.
  pose proof (daysFromCivil_year_step (y1 + Z.of_nat n) m d). lia.
Qed.

Lemma mkDate_year_mono (y1 y2 m d : Z) :
  100 ≤ y1 → y1 ≤ y2 → mkDate y1 m d ≤ mkDate y2 m d.
Proof.
  intros H1 H2. unfold mkDate.
  assert ((0 <=? y1) && (y1 <=? 99) = false) as -> by lia.
  assert ((0 <=? y2) && (y2 <=? 99) = false) as -> by lia.
  pose proof (daysFromCivil_year_mono (y1 + m / 12) (y2 + m / 12)
                (m mod 12 + 1) 1). lia.
Qed.

(** X21. The cutoff and the number of years.  With no year to go back the
    cutoff is the day of the run; one more year moves it back by 365 or 366
    days; so a longer window keeps every invoice that a shorter one keeps:
    a header that is accepted stays accepted, and the set of invoice numbers
    handed to the detail pass only grows.  (Years below 100 are left out:
    [new Date] reads them as years of the twentieth century.) *)
Theorem longer_window_keeps_invoices (cfg cfg' : config) (clk : clock) :
  yearsBack cfg ≤ yearsBack cfg' →
  100 ≤ nowYear clk - yearsBack cfg' →
  cutoffDate clk 0 = today clk
  ∧ 365 ≤ cutoffDate clk (yearsBack cfg' - 1)
          - cutoffDate clk (yearsBack cfg') ≤ 366
  ∧ cutoffDate clk (yearsBack cfg') ≤ cutoffDate clk (yearsBack cfg)
  ∧ (∀ r, rowVerdict cfg clk r = HAccepted →
          rowVerdict cfg' clk r = HAccepted)
  ∧ (∀ hh, inRangeOf cfg clk hh ⊆ inRangeOf cfg' clk hh).
Proof.
  intros Hle Hy.
  assert (cutoffDate clk (yearsBack cfg') ≤ cutoffDate clk (yearsBack cfg))
    as Hcut by (apply mkDate_year_mono; lia).
  assert (∀ r, rowVerdict cfg clk r = HAccepted →
               rowVerdict cfg' clk r = HAccepted) as Hv.
  { intros r (Hk & d & Hd & Hc)%rowVerdict_accepted.
    apply rowVerdict_accepted. split; [done|]. exists d. split; [done|lia]. }
  assert (365 ≤ cutoffDate clk (yearsBack cfg' - 1)
                - cutoffDate clk (yearsBack cfg') ≤ 366) as Hstep.
  { unfold cutoffDate, mkDate.
    assert ((0 <=? nowYear clk - (yearsBack cfg' - 1))
            && (nowYear clk - (yearsBack cfg' - 1) <=? 99) = false)
      as -> by lia.
    assert ((0 <=? nowYear clk - yearsBack cfg')
            && (nowYear clk - yearsBack cfg' <=? 99) = false) as -> by lia.
    pose proof (daysFromCivil_year_step
                  (nowYear clk - yearsBack cfg' + nowMonth clk / 12)
                  (nowMonth clk mod 12 + 1) 1) as Hs.
    replace (nowYear clk - yearsBack cfg' + nowMonth clk / 12 + 1)
      with (nowYear clk - (yearsBack cfg' - 1) + nowMonth clk / 12)
      in Hs by lia.
    lia. }
  split; [unfold cutoffDate, today; by rewrite Z.sub_0_r|].
  split; [exact Hstep|]. split; [exact Hcut|]. split; [exact Hv|].
  intros hh k (i & r & Hin & Hk & Hacc)%elem_of_inRangeOf.
  apply elem_of_inRangeOf. exists i, r. split_and!; [done|done|].
  by apply Hv.
Qed.

Lemma longer_window_keeps_invoices_witness :
  let cfg' := {| yearsBack := 5; batchLimit := batchLimit sampleConfig;
                 hhFile := hhFile sampleConfig;
                 hdFile := hdFile sampleConfig |} in
  cutoffDate sampleClock (yearsBack cfg')
  ≤ cutoffDate sampleClock (yearsBack sampleConfig)
  ∧ inRangeOf sampleConfig sampleClock sampleHeaders
    ⊆ inRangeOf cfg' sampleClock sampleHeaders.
Proof.
  intros cfg'.
  assert (yearsBack sampleConfig ≤ yearsBack cfg') as H1 by (by vm_compute).
  assert (100 ≤ nowYear sampleClock - yearsBack cfg') as H2
    by (by vm_compute).
  destruct (longer_window_keeps_invoices sampleConfig cfg' sampleClock H1 H2)
    as (_ & _ & Hc & _ & Hr).
  split; [exact Hc | exact (Hr sampleHeaders)].
Defined.

(** ** The contact of a buyer *)




(** ** The importer that reads whole files *)

















(** A header whose invoice number is in a column named InvoiceNumber: the
    importer that reads whole files writes it, the streaming importer counts
    it as skipped. *)
Example legacy_reads_other_columns :
  let hh := [[("InvoiceNumber", "INV7"); ("InvoiceDate", "06/15/2025")]] in
  Legacy.headersWritten
    (Legacy.legacyImport sampleConfig sampleClock hh [] ∅) = 1%nat
  ∧ headerWrites sampleConfig sampleClock (parsed <$> hh) = [].
Proof. by vm_compute. Qed.

(** ** Plain amounts *)

Lemma trimEnd_prefix (a x : string) :
  x ≠ "" → JsStr.trimEnd x = x → JsStr.trimEnd (a +:+ x) = a +:+ x.
Proof.
  intros Hx He. induction a as [|c a IH]; [done|].
  rewrite app_cons, trimEnd_cons, IH.
  destruct (String.eqb_spec (a +:+ x) "") as [E|_]; [|done].
  destruct a; simpl in E; [done | discriminate].
Qed.

Lemma trimEnd_digits (d : string) :
  JsStr.allDigits d = true → JsStr.trimEnd d = d.
Proof.
  intros Hd. apply trimEnd_of_trim. by apply trim_digits.
Qed.








(** ** Merge upserts *)




(** ** Line identifiers *)

Lemma natDigits_app (fuel n : nat) (acc : string) :
  JsStr.natDigits fuel n acc = JsStr.natDigits fuel n "" +:+ acc.
Proof.
  revert n acc. induction fuel as [|f IH]; intros n acc; [done|].
  simpl. destruct (n <? 10)%nat; [done|].
  rewrite (IH _ (String _ acc)), (IH _ (String _ "")).
  by rewrite app_assoc_string.
Qed.

Lemma digitsVal_from_app (a : Z) (x y : string) :
  JsStr.digitsVal_from a (x +:+ y)
  = JsStr.digitsVal_from (JsStr.digitsVal_from a x) y.
Proof. revert a. induction x as [|c x IH]; intros a; [done|]. apply IH. Qed.

Lemma allDigits_app (x y : string) :
  JsStr.allDigits (x +:+ y) = JsStr.allDigits x && JsStr.allDigits y.
Proof.
  induction x as [|c x IH]; [done|]. simpl. by rewrite IH, andb_assoc.
Qed.

Lemma code_digit (k : nat) :
  (k < 10)%nat → JsStr.code (ascii_of_nat (48 + k)) = 48 + Z.of_nat k.
Proof.
  intros Hk. unfold JsStr.code. rewrite nat_ascii_embedding by lia. lia.
Qed.

Lemma natDigits_spec (fuel n : nat) :
  (n < fuel)%nat →
  JsStr.digitsVal_from 0 (JsStr.natDigits fuel n "") = Z.of_nat n
  ∧ JsStr.allDigits (JsStr.natDigits fuel n "") = true
  ∧ JsStr.natDigits fuel n "" ≠ "".
Proof.
  revert n. induction fuel as [|f IH]; intros n Hn; [lia|].
  assert (n mod 10 < 10)%nat as Hmod by (apply Nat.mod_upper_bound; lia).
  pose proof (code_digit (n mod 10) Hmod) as Hcode.
  cbn [JsStr.natDigits]. cbv zeta.
  destruct (n <? 10)%nat eqn:E.
  - apply Nat.ltb_lt in E.
    cbn [JsStr.digitsVal_from JsStr.allDigits].
    unfold JsStr.digitVal, JsStr.isDigit. rewrite Hcode.
    rewrite (Nat.mod_small n 10 E). split_and!; [lia|lia|done].
  - apply Nat.ltb_ge in E.
    assert (n / 10 < f)%nat as Hdiv.
    { assert (n / 10 < n)%nat by (apply Nat.div_lt; lia). lia. }
    destruct (IH (n / 10)%nat Hdiv) as (Hv & Hd & Hne).
    rewrite natDigits_app. split_and!.
    + rewrite digitsVal_from_app, Hv.
      cbn [JsStr.digitsVal_from]. unfold JsStr.digitVal.
      rewrite Hcode. pose proof (Nat.div_mod_eq n 10). lia.
    + rewrite allDigits_app, Hd. cbn [JsStr.allDigits andb].
      unfold JsStr.isDigit. rewrite Hcode. lia.
    + intros H. destruct (JsStr.natDigits f (n / 10) ""); [done|].
      discriminate H.
Qed.

Lemma ofNat_spec (n : nat) :
  JsStr.digitsVal (JsStr.ofNat n) = Z.of_nat n
  ∧ JsStr.allDigits (JsStr.ofNat n) = true
  ∧ JsStr.ofNat n ≠ "".
Proof. apply natDigits_spec. lia. Qed.

Lemma string_app_inv_head (p a b : string) : p +:+ a = p +:+ b → a = b.
Proof.
  induction p as [|c p IH]; [done|]. rewrite !app_cons. intros [= H].
  by apply IH.
Qed.

Lemma mapChars_slashToDash_digits (d : string) :
  JsStr.allDigits d = true → JsStr.mapChars slashToDash d = d.
Proof.
  induction d as [|c d IH]; [done|]. simpl.
  intros [Hc Hd]%andb_true_iff. rewrite (IH Hd). f_equal.
  unfold slashToDash. destruct (Ascii.eqb_spec c "/") as [->|]; done.
Qed.

Lemma normalizeDocId_suffix (invoiceNo d : string) :
  JsStr.allDigits d = true → d ≠ "" →
  normalizeDocId (invoiceNo +:+ "__" +:+ d)
  = JsStr.mapChars slashToDash (JsStr.trimStart invoiceNo) +:+ "__" +:+ d.
Proof.
  intros Hd Hne. unfold normalizeDocId, cleanStr.
  rewrite replaceAll_slash.
  assert (JsStr.trim (invoiceNo +:+ "__" +:+ d)
          = JsStr.trimStart invoiceNo +:+ "__" +:+ d) as ->.
  { unfold JsStr.trim. rewrite trimStart_app.
    assert (JsStr.trimStart ("__" +:+ d) = "__" +:+ d) as Hu by done.
    destruct (String.eqb_spec (JsStr.trimStart invoiceNo) "") as [->|_].
    - rewrite Hu. rewrite app_empty_l.
      apply (trimEnd_prefix "__" d Hne (trimEnd_digits d Hd)).
    - rewrite <- app_assoc_string.
      rewrite (trimEnd_prefix _ d Hne (trimEnd_digits d Hd)).
      by rewrite app_assoc_string. }
  rewrite !mapChars_app. by rewrite (mapChars_slashToDash_digits d Hd).
Qed.

(** X28. The identifier of a line document.  A row with a line key gets an
    identifier that the row index has no part in, so importing the row again
    writes the same document.  A row without one gets the row index in its
    place: the index is written in decimal and can be read back, so two such
    rows of an invoice never share a document.  But a row whose line key is
    the number i and a row without a key at row i of the same invoice get the
    same identifier. *)
Theorem makeLineId_by_key_or_row (invoiceNo : string) (i j : nat) :
  (∀ key, cleanStr (Some key) ≠ "" →
          makeLineId invoiceNo key i = makeLineId invoiceNo key j)
  ∧ JsStr.digitsVal (JsStr.ofNat i) = Z.of_nat i
  ∧ (makeLineId invoiceNo "" i = makeLineId invoiceNo "" j → i = j)
  ∧ makeLineId invoiceNo (JsStr.ofNat i) j = makeLineId invoiceNo "" i.
Proof.
  destruct (ofNat_spec i) as (Hvi & Hdi & Hni).
  destruct (ofNat_spec j) as (Hvj & Hdj & Hnj).
  split_and!.
  - intros key Hk. unfold makeLineId. by rewrite !(eqb_empty_false _ Hk).
  - exact Hvi.
  - unfold makeLineId. change (cleanStr (Some "")) with "".
    cbn [String.eqb].
    rewrite (normalizeDocId_suffix _ _ Hdi Hni).
    rewrite (normalizeDocId_suffix _ _ Hdj Hnj).
    intros H. apply string_app_inv_head in H.
    apply (string_app_inv_head "__") in H.
    apply (f_equal JsStr.digitsVal) in H. rewrite Hvi, Hvj in H. lia.
  - unfold makeLineId. change (cleanStr (Some "")) with "".
    cbn [String.eqb]. unfold cleanStr. rewrite (trim_digits _ Hdi).
    by rewrite (eqb_empty_false _ Hni).
Qed.

(** ** The transient signatures of the scripts *)

Lemma transientIndex_import (msg : string) :
  transientIndex msg = true → transientImport msg = true.
Proof. unfold transientIndex, transientImport. intros ->. done. Qed.

Lemma commitWithRetryFrom_wider (commit : nat → option string)
    (fuel attempt : nat) (evs : list commitEvent) :
  commitWithRetryFrom transientIndex commit fuel attempt
  = Some (evs, Committed) →
  commitWithRetryFrom transientImport commit fuel attempt
  = Some (evs, Committed).
Proof.
  revert attempt evs. induction fuel as [|fuel IH]; intros attempt evs; [done|].
  simpl. destruct (commit attempt) as [msg|]; [|done].
  destruct (attempt <=? 6)%nat; simpl; [|done].
  destruct (transientIndex msg) eqn:Et; [|done].
  rewrite (transientIndex_import msg Et).
  destruct (commitWithRetryFrom transientIndex commit fuel (attempt + 1))
    as [[evs' res]|] eqn:Er; [|done].
  intros [= <- ->]. by rewrite (IH _ _ Er).
Qed.

(** X29. The import script retries on one more signature than the index
    builder and the importer that reads whole files: whatever these two
    retry, it retries, so a commit that succeeds under their policy succeeds
    under its policy after the same attempts and waits.  A first failure
    that carries UNAVAILABLE and none of the three other signatures is thrown
    at once by them, while the import script waits 250 ms and tries again. *)
Theorem unavailable_is_retried_by_import_only
    (commit : nat → option string) (msg : string) :
  commit 1%nat = Some msg →
  JsStr.includes "UNAVAILABLE" msg = true →
  transientIndex msg = false →
  commitWithRetry transientIndex commit 7 = Some ([EvCommit 1], Thrown msg)
  ∧ (∃ evs res,
       commitWithRetry transientImport commit 7
       = Some (EvCommit 1 :: EvWait 250 :: EvCommit 2 :: evs, res))
  ∧ (∀ m, transientIndex m = true → transientImport m = true)
  ∧ (∀ commit' evs,
       commitWithRetry transientIndex commit' 7 = Some (evs, Committed) →
       commitWithRetry transientImport commit' 7 = Some (evs, Committed)).
Proof.
  intros Hc Hu Ht. split_and!.
  - unfold commitWithRetry. simpl. by rewrite Hc, Ht.
  - assert (transientImport msg = true) as Hi.
    { unfold transientImport. rewrite Hu. by rewrite !orb_true_r. }
    destruct (commitWithRetryFrom_spec transientImport commit 6 2
                ltac:(lia) ltac:(lia)) as (r & res & Heq & _).
    unfold commitWithRetry.
    change (commitWithRetryFrom transientImport commit 7 1)
      with (match commit 1%nat with
            | None => Some ([EvCommit 1], Committed)
            | Some msg =>
                if (1 <=? 6)%nat && transientImport msg then
                  match commitWithRetryFrom transientImport commit 6 2 with
                  | Some (evs, res) =>
                      Some (EvCommit 1 :: EvWait (250 * 1 * 1) :: evs, res)
                  | None => None
                  end
                else Some ([EvCommit 1], Thrown msg)
            end).
    rewrite Hc, Hi, Heq. simpl andb. cbv iota.
    unfold retryEvents. destruct r as [|r].
    + by exists [], res.
    + eexists _, res. simpl. reflexivity.
  - apply transientIndex_import.
  - intros commit' evs. apply commitWithRetryFrom_wider.
Qed.

Lemma unavailable_is_retried_by_import_only_witness :
  let commit := λ k : nat,
    if (k =? 1)%nat then Some "14 UNAVAILABLE: connection reset"
    else None in
  commitWithRetry transientIndex commit 7
  = Some ([EvCommit 1], Thrown "14 UNAVAILABLE: connection reset")
  ∧ ∃ evs res,
      commitWithRetry transientImport commit 7
      = Some (EvCommit 1 :: EvWait 250 :: EvCommit 2 :: evs, res).
Proof.
  intros commit.
  destruct (unavailable_is_retried_by_import_only commit
              "14 UNAVAILABLE: connection reset")
    as (H1 & H2 & _); [reflexivity|by vm_compute|by vm_compute|].
  split; [exact H1 | exact H2].
Defined.
